(** * ICT metadata model: a shallow embedding of [src/ict/metadata/objects.py]

    The Python module declares two root models, [Author] and [DOI], each
    wrapping one string with a format check and a dispatched [__eq__], and
    the [Metadata] model with twelve fields, two field validators
    ([check_name], [check_container]) and one model validator
    ([default_title]).

    Strings are Rocq strings read as the UTF-8 encoding of the Python text.
    Every test in the module compares against ASCII characters only
    (the separators [" "] and ["/"], the prefix ["10."], the ASCII classes
    of the container pattern), and no byte of a multi-byte UTF-8 sequence
    is ASCII, so splitting, prefix tests and the pattern give the same
    answers on the encoding as on the code points. *)

From Stdlib Require Import String Ascii Bool Arith Lia List Sorted.
From stdpp Require Import gmap strings list.

Local Open Scope string_scope.
Set Warnings "-register-all".
Set Default Proof Using "Type".

(** ** Exceptions and results *)

(** The two exception classes the module raises by itself. *)
Inductive exn : Type :=
  | ValueError (msg : string)
  | TypeError (msg : string).

(** A call either returns a value or raises. *)
Inductive result (A : Type) : Type :=
  | Ok (a : A)
  | Raise (e : exn).

Arguments Ok {A} a.
Arguments Raise {A} e.

Definition is_ok {A} (r : result A) : bool :=
  match r with Ok _ => true | Raise _ => false end.

(** ** Python string primitives used by the module *)

Module Py.

(** [s.split(sep)] for a one-character separator: the pieces between the
    occurrences of [sep], empty pieces included, so that the empty string
    splits into one empty piece. *)
Fixpoint split (sep : ascii) (s : string) : list string :=
  match s with
  | EmptyString => [EmptyString]
  | String c s' =>
      if Ascii.eqb c sep then EmptyString :: split sep s'
      else match split sep s' with
           | piece :: pieces => String c piece :: pieces
           | [] => [String c EmptyString]
           end
  end.

(** [s.startswith(p)]. *)
Definition startswith (s p : string) : bool := String.prefix p s.

(** Number of occurrences of a character. *)
Fixpoint count (c : ascii) (s : string) : nat :=
  match s with
  | EmptyString => 0
  | String a s' => (if Ascii.eqb a c then 1 else 0) + count c s'
  end.

(** The ASCII characters for which [str.isspace] holds: space, tab to
    carriage return, and the four separators 28 to 31. *)
Definition isspace (c : ascii) : bool :=
  let n := nat_of_ascii c in
  ((n =? 32) || ((9 <=? n) && (n <=? 13)) || ((28 <=? n) && (n <=? 31)))%nat.

(** [s.split()] without argument: maximal runs of non-whitespace
    characters; nothing is produced for leading, trailing or repeated
    whitespace.  Used only to state properties, the module never calls it. *)
Fixpoint split_ws_aux (cur : string) (s : string) : list string :=
  match s with
  | EmptyString =>
      match cur with EmptyString => [] | _ => [cur] end
  | String c s' =>
      if isspace c then
        match cur with
        | EmptyString => split_ws_aux EmptyString s'
        | _ => cur :: split_ws_aux EmptyString s'
        end
      else split_ws_aux (cur +:+ String c EmptyString) s'
  end.

Definition split_ws (s : string) : list string := split_ws_aux EmptyString s.

(** Splitting at every whitespace character, empty pieces kept. *)
Fixpoint split_each_ws (s : string) : list string :=
  match s with
  | EmptyString => [EmptyString]
  | String c s' =>
      if isspace c then EmptyString :: split_each_ws s'
      else match split_each_ws s' with
           | piece :: pieces => String c piece :: pieces
           | [] => [String c EmptyString]
           end
  end.

End Py.

(** ** Author *)

Record Author : Type := mkAuthor { author_root : string }.

Definition author_msg : string :=
  "The author must be in the format <first name> <last name>".

(** [Author.check_author]: the value must split on one space into two
    pieces; it is returned unchanged. *)
Definition check_author (value : string) : result string :=
  if negb (length (Py.split " " value) =? 2)%nat
  then Raise (ValueError author_msg)
  else Ok value.

(** ** DOI *)

Record DOI : Type := mkDOI { doi_root : string }.

Definition doi_prefix_msg : string := "The DOI must start with 10.".
Definition doi_format_msg : string :=
  "The DOI must be in the format <prefix>/<suffix>".

(** [DOI.check_doi]: the prefix test comes first, then the split test. *)
Definition check_doi (value : string) : result string :=
  if negb (Py.startswith value "10.")
  then Raise (ValueError doi_prefix_msg)
  else if negb (length (Py.split "/" value) =? 2)%nat
  then Raise (ValueError doi_format_msg)
  else Ok value.

(** ** Name *)

Definition name_msg : string :=
  "The name must be in the format <organization/user>/<ICT name>".

(** [Metadata.check_name]: the number of pieces is looked up in [[2, 3]]. *)
Definition check_name (value : string) : result string :=
  if negb (existsb (Nat.eqb (length (Py.split "/" value))) [2; 3])
  then Raise (ValueError name_msg)
  else Ok value.

(** ** The container pattern *)

Module Re.

(** One quantified character set of a pattern: [set{lo,hi}], with
    [hi = None] for an unbounded repetition. *)
Record item : Type := Item {
  item_set : ascii -> bool;
  item_min : nat;
  item_max : option nat
}.

Definition may_take (hi : option nat) : bool :=
  match hi with Some 0 => false | _ => true end.

(** Greedy repetition with backtracking, the way [re] runs it: take one
    more character while the set and the upper bound allow it, and fall
    back to the rest of the pattern [k] when the longer attempt fails. *)
Fixpoint repeat_greedy (set : ascii -> bool) (lo : nat) (hi : option nat)
    (k : string -> bool) (s : string) : bool :=
  match s with
  | String c s' =>
      if set c && may_take hi
      then repeat_greedy set (Nat.pred lo) (option_map Nat.pred hi) k s'
           || ((lo =? 0)%nat && k s)
      else (lo =? 0)%nat && k s
  | EmptyString => (lo =? 0)%nat && k s
  end.

(** A sequence of quantified sets followed by the end test. *)
Fixpoint match_seq (items : list item) (at_end : string -> bool)
    (s : string) : bool :=
  match items with
  | [] => at_end s
  | it :: rest =>
      repeat_greedy (item_set it) (item_min it) (item_max it)
        (match_seq rest at_end) s
  end.

Definition newline : ascii := ascii_of_nat 10.

(** [$] without [re.MULTILINE]: the end of the string, or the position
    just before a newline that is the last character of the string. *)
Definition dollar (s : string) : bool :=
  match s with
  | EmptyString => true
  | String c EmptyString => Ascii.eqb c newline
  | _ => false
  end.

Definition in_range (lo hi : nat) (c : ascii) : bool :=
  let n := nat_of_ascii c in ((lo <=? n) && (n <=? hi))%nat.

(** [[a-zA-Z]] *)
Definition letter (c : ascii) : bool := in_range 97 122 c || in_range 65 90 c.
(** [[0-9]] *)
Definition digit (c : ascii) : bool := in_range 48 57 c.
(** [\/] *)
Definition slash (c : ascii) : bool := Ascii.eqb c "/".
(** [[a-zA-Z_\-]] *)
Definition repo_char (c : ascii) : bool :=
  letter c || Ascii.eqb c "_" || Ascii.eqb c "-".
(** [:] *)
Definition colon (c : ascii) : bool := Ascii.eqb c ":".
(** [[a-zA-Z0-9_\.]] *)
Definition tag_char (c : ascii) : bool :=
  letter c || digit c || Ascii.eqb c "_" || Ascii.eqb c ".".

(** [^[a-zA-Z]*\/{0,1}[a-zA-Z_\-]+:[a-zA-Z0-9_\.]+$]; [re.match] anchors
    the attempt at the start of the string, as [^] does. *)
Definition container_pattern : list item :=
  [ Item letter 0 None;
    Item slash 0 (Some 1);
    Item repo_char 1 None;
    Item colon 1 (Some 1);
    Item tag_char 1 None ].

(** [bool(re.match(pattern, value))] for the container pattern. *)
Definition match_container (value : string) : bool :=
  match_seq container_pattern dollar value.

(** Every character of the string is in the set. *)
Fixpoint all_in (set : ascii -> bool) (s : string) : bool :=
  match s with
  | EmptyString => true
  | String c s' => set c && all_in set s'
  end.

End Re.

Definition container_msg : string :=
  "The name must be in the format <registry path>/<image repository>:<tag>".

(** [Metadata.check_container]. *)
Definition check_container (value : string) : result string :=
  if negb (Re.match_container value)
  then Raise (ValueError container_msg)
  else Ok value.

(** The shape the pattern is meant to describe: letters for the registry,
    at most one slash, a non-empty repository, a colon, a non-empty tag. *)
Definition container_shape (s : string) : Prop :=
  exists reg sl repo tag : string,
    s = reg +:+ sl +:+ repo +:+ ":" +:+ tag
    /\ Re.all_in Re.letter reg = true
    /\ (sl = "" \/ sl = "/")
    /\ repo <> "" /\ Re.all_in Re.repo_char repo = true
    /\ tag <> "" /\ Re.all_in Re.tag_char tag = true.

(** The characters a string of the shape can contain. *)
Definition shape_char (c : ascii) : bool :=
  Re.repo_char c || Re.tag_char c || Re.slash c || Re.colon c.

(** The characters the pattern allows before the colon, and after it
    (the newline being the one [$] lets through). *)
Definition before_char (c : ascii) : bool := Re.repo_char c || Re.slash c.
Definition after_char (c : ascii) : bool :=
  Re.tag_char c || Ascii.eqb c Re.newline.

(** ** Validation of a [Metadata] record *)

(** An entry of the error report of a failed validation: the field, the
    index inside the field for an element of [author], and what went
    wrong.  The library's many error codes are grouped into four kinds. *)
Inductive err_kind : Type :=
  | missing                 (* required key not in the input *)
  | wrong_type              (* value is not of the declared primitive type *)
  | parse_error             (* version, e-mail or URL parser refused it *)
  | raised (e : exn).       (* a validator of this module raised *)

Record error : Type := Error {
  err_field : string;
  err_index : option nat;
  err_what : err_kind
}.

(** Outcome of validating one field or the whole record: the errors found,
    or the value. *)
Definition checked (A : Type) : Type := list error + A.

(** The errors of a failed validation. *)
Definition errors_of {A} (c : checked A) : list error :=
  match c with inl es => es | inr _ => [] end.

(** No error of the outcome is of kind [missing]. *)
Definition never_missing {A} (c : checked A) : Prop :=
  forall e, In e (errors_of c) -> err_what e <> missing.

(** An error that names the given field for a value that is present,
    with an index only where elements of a list are validated. *)
Definition names_field (field : string) (indexed : bool) (err : error)
    : Prop :=
  err_field err = field /\ err_what err <> missing
  /\ (indexed = false -> err_index err = None).

(** Errors of independent fields are collected, in field order. *)
Definition ap {A B} (f : checked (A -> B)) (x : checked A) : checked B :=
  match f, x with
  | inr g, inr a => inr (g a)
  | inl e, inr _ => inl e
  | inr _, inl e => inl e
  | inl e1, inl e2 => inl (e1 ++ e2)%list
  end.

Notation "f <*> x" := (ap f x) (at level 51, left associativity).

(** A validator of this module run after the primitive type check. *)
Definition after (field : string) (index : option nat)
    (check : string -> result string) (s : string) : checked string :=
  match check s with
  | Ok s' => inr s'
  | Raise e => inl [Error field index (raised e)]
  end.

Section Model.

(** Instances of [ict.version.Version]; the class is not part of the
    module and is kept abstract. *)
Variable Version : Type.
(** Instances of the library's [AnyHttpUrl]. *)
Variable Url : Type.

(** Values a caller can put into the input mapping: what a YAML or JSON
    document deserialises to, and instances of the classes the fields are
    declared with.  Byte strings, which the library decodes where a [str]
    is declared, are not among them. *)
Inductive raw : Type :=
  | RNone
  | RBool (b : bool)
  | RInt (z : Z)
  | RStr (s : string)
  | RList (xs : list raw)
  | RDict (kvs : list (string * raw))
  | RPath (p : string)
  | RVersion (v : Version)
  | RUrl (u : Url)
  | RAuthor (a : Author)
  | RDOI (d : DOI).

(** Validation of a raw value as a [Version]. *)
Variable version_validate : raw -> option Version.
(** Validation of a raw value as an [AnyHttpUrl]. *)
Variable url_validate : raw -> option Url.
(** Validation of a string as an [EmailStr]; the result is the e-mail
    address as the library normalises it. *)
Variable email_validate : string -> option string.

(** *** Equality of the root models *)

Definition eq_msg : string := "invalid type for comparison.".

(** [Author.__eq__]: dispatch on the class of [other]; the [str] and the
    [Author] implementations are registered, everything else reaches the
    default implementation, which raises. *)
Definition Author_eq (self : Author) (other : raw) : result bool :=
  match other with
  | RStr s => Ok (String.eqb (author_root self) s)
  | RAuthor o => Ok (String.eqb (author_root self) (author_root o))
  | _ => Raise (TypeError eq_msg)
  end.

(** [DOI.__eq__], with [str] and [DOI] registered. *)
Definition DOI_eq (self : DOI) (other : raw) : result bool :=
  match other with
  | RStr s => Ok (String.eqb (doi_root self) s)
  | RDOI o => Ok (String.eqb (doi_root self) (doi_root o))
  | _ => Raise (TypeError eq_msg)
  end.

(** *** The record *)

(** [Union[EntrypointPath, str]]. *)
Inductive entrypoint_t : Type :=
  | EPath (p : string)
  | EStr (s : string).

(** [Union[EmailStr, AnyHttpUrl]]. *)
Inductive contact_t : Type :=
  | CEmail (e : string)
  | CUrl (u : Url).

Record Metadata : Type := mkMetadata {
  specVersion : Version;
  name : string;
  version : Version;
  container : string;
  entrypoint : entrypoint_t;
  title : option string;
  description : option string;
  author : list Author;
  contact : option contact_t;
  repository : Url;
  documentation : option Url;
  citation : option DOI
}.

(** *** Field validators *)

(** A field declared without default: the key must be present. *)
Definition required {A} (field : string) (v : raw -> checked A)
    (m : gmap string raw) : checked A :=
  match m !! field with
  | None => inl [Error field None missing]
  | Some x => v x
  end.

(** A field declared with default [None]: the default is used, unchecked,
    when the key is not present. *)
Definition with_default_None {A} (field : string)
    (v : raw -> checked (option A)) (m : gmap string raw)
    : checked (option A) :=
  match m !! field with
  | None => inr None
  | Some x => v x
  end.

(** [Optional[T]]: [None] is accepted as it is. *)
Definition nullable {A} (v : raw -> checked A) (x : raw)
    : checked (option A) :=
  match x with
  | RNone => inr None
  | _ => match v x with inl e => inl e | inr a => inr (Some a) end
  end.

Definition str_value (field : string) (x : raw) : checked string :=
  match x with
  | RStr s => inr s
  | _ => inl [Error field None wrong_type]
  end.

Definition checked_str (field : string) (check : string -> result string)
    (x : raw) : checked string :=
  match str_value field x with
  | inl e => inl e
  | inr s => after field None check s
  end.

Definition version_value (field : string) (x : raw) : checked Version :=
  match version_validate x with
  | Some v => inr v
  | None => inl [Error field None parse_error]
  end.

Definition url_value (field : string) (x : raw) : checked Url :=
  match url_validate x with
  | Some u => inr u
  | None => inl [Error field None parse_error]
  end.

(** The union keeps the value when it is a path or a string. *)
Definition entrypoint_value (field : string) (x : raw)
    : checked entrypoint_t :=
  match x with
  | RPath p => inr (EPath p)
  | RStr s => inr (EStr s)
  | _ => inl [Error field None wrong_type]
  end.

(** The members of the union are tried in the order of declaration; only
    a string can be an e-mail address. *)
Definition contact_value (field : string) (x : raw) : checked contact_t :=
  match match x with RStr s => email_validate s | _ => None end with
  | Some e => inr (CEmail e)
  | None =>
      match url_validate x with
      | Some u => inr (CUrl u)
      | None => inl [Error field None parse_error]
      end
  end.

(** An instance of a root model is kept as it is; a string is given to the
    validator of the root field. *)
Definition author_value (field : string) (i : nat) (x : raw)
    : checked Author :=
  match x with
  | RAuthor a => inr a
  | RStr s =>
      match after field (Some i) check_author s with
      | inl e => inl e
      | inr s' => inr (mkAuthor s')
      end
  | _ => inl [Error field (Some i) wrong_type]
  end.

Fixpoint author_items (field : string) (i : nat) (xs : list raw)
    : checked (list Author) :=
  match xs with
  | [] => inr []
  | x :: xs' =>
      inr cons <*> author_value field i x <*> author_items field (S i) xs'
  end.

(** A list is validated element by element.  An instance of a root model
    is not a list but can be iterated, giving its one field as a pair; it
    is taken for a sequence of one element, which is no author.  Every
    other value is refused as a whole. *)
Definition author_list (field : string) (x : raw) : checked (list Author) :=
  match x with
  | RList xs => author_items field 0 xs
  | RAuthor _ | RDOI _ => inl [Error field (Some 0) wrong_type]
  | _ => inl [Error field None wrong_type]
  end.

Definition doi_value (field : string) (x : raw) : checked DOI :=
  match x with
  | RDOI d => inr d
  | RStr s =>
      match after field None check_doi s with
      | inl e => inl e
      | inr s' => inr (mkDOI s')
      end
  | _ => inl [Error field None wrong_type]
  end.

(** *** The pipeline *)

(** The twelve field declarations of the class, in their order: what is
    done with the input mapping for each field. *)
Definition f_specVersion := required "specVersion" (version_value "specVersion").
Definition f_name := required "name" (checked_str "name" check_name).
Definition f_version := required "version" (version_value "version").
Definition f_container :=
  required "container" (checked_str "container" check_container).
Definition f_entrypoint := required "entrypoint" (entrypoint_value "entrypoint").
Definition f_title := with_default_None "title" (nullable (str_value "title")).
Definition f_description :=
  with_default_None "description" (nullable (str_value "description")).
Definition f_author := required "author" (author_list "author").
Definition f_contact := required "contact" (nullable (contact_value "contact")).
Definition f_repository := required "repository" (url_value "repository").
Definition f_documentation :=
  with_default_None "documentation" (nullable (url_value "documentation")).
Definition f_citation := required "citation" (nullable (doi_value "citation")).

(** Construction: every declared field is validated, the errors of all
    fields are reported together, and keys that are not fields are
    ignored. *)
Definition construct (m : gmap string raw) : checked Metadata :=
  inr mkMetadata
    <*> f_specVersion m <*> f_name m <*> f_version m <*> f_container m
    <*> f_entrypoint m <*> f_title m <*> f_description m <*> f_author m
    <*> f_contact m <*> f_repository m <*> f_documentation m
    <*> f_citation m.

(** [Metadata.default_title], the model validator run after construction:
    [if self.title is None: self.title = self.name]. *)
Definition default_title (self : Metadata) : Metadata :=
  match title self with
  | None =>
      mkMetadata (specVersion self) (name self) (version self)
        (container self) (entrypoint self) (Some (name self))
        (description self) (author self) (contact self) (repository self)
        (documentation self) (citation self)
  | Some _ => self
  end.

(** [Metadata.model_validate(m)]: construction, then the model validator. *)
Definition validate (m : gmap string raw) : checked Metadata :=
  match construct m with
  | inl e => inl e
  | inr r => inr (default_title r)
  end.

(** The values held by the fields of a record, keyed by field name. *)
Definition opt_raw {A} (f : A -> raw) (o : option A) : raw :=
  match o with None => RNone | Some a => f a end.

Definition entrypoint_raw (e : entrypoint_t) : raw :=
  match e with EPath p => RPath p | EStr s => RStr s end.

Definition contact_raw (c : contact_t) : raw :=
  match c with CEmail e => RStr e | CUrl u => RUrl u end.

Definition fields_of (r : Metadata) : gmap string raw :=
  <["specVersion" := RVersion (specVersion r)]>
  (<["name" := RStr (name r)]>
  (<["version" := RVersion (version r)]>
  (<["container" := RStr (container r)]>
  (<["entrypoint" := entrypoint_raw (entrypoint r)]>
  (<["title" := opt_raw RStr (title r)]>
  (<["description" := opt_raw RStr (description r)]>
  (<["author" := RList (map RAuthor (author r))]>
  (<["contact" := opt_raw contact_raw (contact r)]>
  (<["repository" := RUrl (repository r)]>
  (<["documentation" := opt_raw RUrl (documentation r)]>
  (<["citation" := opt_raw RDOI (citation r)]> ∅))))))))))).

End Model.

Arguments RNone {Version Url}.
Arguments RBool {Version Url} b.
Arguments RInt {Version Url} z.
Arguments RStr {Version Url} s.
Arguments RList {Version Url} xs.
Arguments RDict {Version Url} kvs.
Arguments RPath {Version Url} p.
Arguments RVersion {Version Url} v.
Arguments RUrl {Version Url} u.
Arguments RAuthor {Version Url} a.
Arguments RDOI {Version Url} d.
Arguments CEmail {Url} e.
Arguments CUrl {Url} u.
Arguments mkMetadata {Version Url}.
Arguments specVersion {Version Url} m.
Arguments name {Version Url} m.
Arguments version {Version Url} m.
Arguments container {Version Url} m.
Arguments entrypoint {Version Url} m.
Arguments title {Version Url} m.
Arguments description {Version Url} m.
Arguments author {Version Url} m.
Arguments contact {Version Url} m.
Arguments repository {Version Url} m.
Arguments documentation {Version Url} m.
Arguments citation {Version Url} m.
Arguments Author_eq {Version Url} self other.
Arguments DOI_eq {Version Url} self other.
Arguments default_title {Version Url} self.
Arguments fields_of {Version Url} r.
Arguments required {Version Url A} field v m.
Arguments with_default_None {Version Url A} field v m.
Arguments nullable {Version Url A} v x.
Arguments str_value {Version Url} field x.
Arguments checked_str {Version Url} field check x.
Arguments version_value {Version Url} version_validate field x.
Arguments url_value {Version Url} url_validate field x.
Arguments entrypoint_value {Version Url} field x.
Arguments contact_value {Version Url} url_validate email_validate field x.
Arguments author_value {Version Url} field i x.
Arguments author_items {Version Url} field i xs.
Arguments author_list {Version Url} field x.
Arguments doi_value {Version Url} field x.
Arguments opt_raw {Version Url A} f o.
Arguments entrypoint_raw {Version Url} e.
Arguments contact_raw {Version Url} c.
Arguments f_specVersion {Version Url} version_validate m.
Arguments f_name {Version Url} m.
Arguments f_version {Version Url} version_validate m.
Arguments f_container {Version Url} m.
Arguments f_entrypoint {Version Url} m.
Arguments f_title {Version Url} m.
Arguments f_description {Version Url} m.
Arguments f_author {Version Url} m.
Arguments f_contact {Version Url} url_validate email_validate m.
Arguments f_repository {Version Url} url_validate m.
Arguments f_documentation {Version Url} url_validate m.
Arguments f_citation {Version Url} m.
Arguments construct {Version Url} version_validate url_validate email_validate m.
Arguments validate {Version Url} version_validate url_validate email_validate m.

(** ** Building and printing the root models *)

(** [Author(root)] for a string: the validator of the root field is run
    and the instance holds what it returns; its [ValueError] reaches the
    caller inside the library's validation error, itself a [ValueError]. *)
Definition Author_new (root : string) : result Author :=
  match check_author root with
  | Ok value => Ok (mkAuthor value)
  | Raise e => Raise e
  end.

(** [Author.__repr__] and [Author.__str__]. *)
Definition Author_repr (self : Author) : string := author_root self.
Definition Author_str (self : Author) : string := author_root self.

(** [DOI(root)] for a string. *)
Definition DOI_new (root : string) : result DOI :=
  match check_doi root with
  | Ok value => Ok (mkDOI value)
  | Raise e => Raise e
  end.

(** [DOI.__repr__] and [DOI.__str__]. *)
Definition DOI_repr (self : DOI) : string := doi_root self.
Definition DOI_str (self : DOI) : string := doi_root self.

(** ** The names of the fields *)

(** The fields declared without default, in the order of declaration. *)
Definition required_fields : list string :=
  [ "specVersion"; "name"; "version"; "container"; "entrypoint"; "author";
    "contact"; "repository"; "citation" ].

(** The fields declared with default [None]. *)
Definition optional_fields : list string :=
  [ "title"; "description"; "documentation" ].

(** The positions, counted from [i], of the strings of a list that do not
    contain exactly one space. *)
Fixpoint refused_positions (i : nat) (names : list string) : list nat :=
  match names with
  | [] => []
  | s :: rest =>
      (if (Py.count " " s =? 1)%nat then [] else [i])
      ++ refused_positions (S i) rest
  end%list.

(** The error reported for the author at a position. *)
Definition author_error (field : string) (k : nat) : error :=
  Error field (Some k) (raised (ValueError author_msg)).

(** ** A sample document *)

(** Stand-ins for the three parsers that live outside the module, precise
    enough to run the pipeline on the example values of the field
    declarations: a version is three dot-separated pieces, a URL starts
    with ["https://"], an e-mail address contains one ["@"]; instances of
    the classes are accepted as they are. *)
Module Sample.

Definition version_validate (x : raw string string) : option string :=
  match x with
  | RStr s => if (length (Py.split "." s) =? 3)%nat then Some s else None
  | RVersion v => Some v
  | _ => None
  end.

Definition url_validate (x : raw string string) : option string :=
  match x with
  | RStr s => if Py.startswith s "https://" then Some s else None
  | RUrl u => Some u
  | _ => None
  end.

Definition email_validate (s : string) : option string :=
  if (Py.count "@" s =? 1)%nat then Some s else None.

(** The examples given with the field declarations; [title],
    [description] and [documentation] are left out. *)
Definition document : gmap string (raw string string) :=
  <["specVersion" := RStr "0.1.0"]>
  (<["name" := RStr "wipp/threshold"]>
  (<["version" := RStr "1.1.1"]>
  (<["container" := RStr "wipp/threshold:1.1.1"]>
  (<["entrypoint" := RStr "/opt/executables/main.sh"]>
  (<["author" := RList [RStr "Mohammed Ouladi"]]>
  (<["contact" := RStr "mohammed.ouladi@labshare.org"]>
  (<["repository" := RStr "https://github.com/polusai/polus-plugins"]>
  (<["citation" := RStr "10.1000/abc"]> ∅)))))))).

Definition record : Metadata string string :=
  mkMetadata "0.1.0" "wipp/threshold" "1.1.1" "wipp/threshold:1.1.1"
    (EStr "/opt/executables/main.sh") (Some "wipp/threshold") None
    [mkAuthor "Mohammed Ouladi"]
    (Some (CEmail "mohammed.ouladi@labshare.org"))
    "https://github.com/polusai/polus-plugins" None
    (Some (mkDOI "10.1000/abc")).

Definition run := validate version_validate url_validate email_validate.

End Sample.

(** * Properties *)

(** ** Strings and splitting *)

Lemma str_app_cons (x : ascii) (a b : string) :
  String x a +:+ b = String x (a +:+ b).
Proof. reflexivity. Qed.

Lemma str_app_nil_l (b : string) : "" +:+ b = b.
Proof. reflexivity. Qed.

Lemma str_app_assoc (a b c : string) : (a +:+ b) +:+ c = a +:+ (b +:+ c).
Proof.
  induction a as [|x a IH]; [reflexivity |].
  now rewrite !str_app_cons, IH.
Qed.

Lemma str_app_nil_r (a : string) : a +:+ "" = a.
Proof.
  induction a as [|x a IH]; [reflexivity |].
  now rewrite str_app_cons, IH.
Qed.

Lemma str_app_nil_inv (a b : string) : a +:+ b = "" -> a = "" /\ b = "".
Proof.
  destruct a; [rewrite str_app_nil_l; auto | rewrite str_app_cons; discriminate].
Qed.

Lemma count_app (c : ascii) (a b : string) :
  Py.count c (a +:+ b) = Py.count c a + Py.count c b.
Proof.
  induction a as [|x a IH]; [reflexivity |].
  rewrite str_app_cons. simpl. rewrite IH. lia.
Qed.

Lemma split_not_nil (sep : ascii) (s : string) : Py.split sep s <> [].
Proof.
  induction s as [|c s IH]; simpl; [discriminate |].
  destruct (Ascii.eqb c sep); [discriminate |].
  destruct (Py.split sep s); [contradiction | discriminate].
Qed.

(** A split has one piece more than the string has separators. *)
Lemma split_length (sep : ascii) (s : string) :
  length (Py.split sep s) = S (Py.count sep s).
Proof.
  induction s as [|c s IH]; simpl; [reflexivity |].
  destruct (Ascii.eqb c sep); simpl; [now rewrite IH |].
  destruct (Py.split sep s) as [|p ps] eqn:E; simpl in *; [discriminate | exact IH].
Qed.

(** Without separator the string is its only piece. *)
Lemma split_no_sep (sep : ascii) (s : string) :
  Py.count sep s = 0 -> Py.split sep s = [s].
Proof.
  induction s as [|c s IH]; simpl; [reflexivity |].
  destruct (Ascii.eqb c sep); [discriminate |].
  intros H. now rewrite IH.
Qed.

(** Splitting at the first separator. *)
Lemma split_app (sep : ascii) (p q : string) :
  Py.count sep p = 0 ->
  Py.split sep (p +:+ String sep q) = p :: Py.split sep q.
Proof.
  induction p as [|c p IH].
  - intros _. rewrite str_app_nil_l. simpl. now rewrite Ascii.eqb_refl.
  - rewrite str_app_cons. simpl.
    destruct (Ascii.eqb c sep); [discriminate |].
    intros H. now rewrite IH.
Qed.

(** The pieces contain no separator and rebuild the string. *)
Lemma split_two (sep : ascii) (s p q : string) :
  Py.split sep s = [p; q] <->
  s = p +:+ String sep q /\ Py.count sep p = 0 /\ Py.count sep q = 0.
Proof.
  split.
  - revert p. induction s as [|c s IH]; simpl; intros p; [discriminate |].
    destruct (Ascii.eqb_spec c sep) as [->|Hne].
    + intros H. injection H as <- Hq.
      assert (Hc : Py.count sep s = 0).
      { pose proof (split_length sep s) as L. rewrite Hq in L. simpl in L. lia. }
      rewrite (split_no_sep _ _ Hc) in Hq. injection Hq as ->.
      rewrite str_app_nil_l. auto.
    + destruct (Py.split sep s) as [|p' ps] eqn:E; [discriminate |].
      intros H. injection H as <- ->.
      destruct (IH p' eq_refl) as (-> & Hp & Hq).
      rewrite str_app_cons. simpl.
      apply Ascii.eqb_neq in Hne. rewrite Hne. auto.
  - intros (-> & Hp & Hq). rewrite (split_app _ _ _ Hp).
    now rewrite (split_no_sep _ _ Hq).
Qed.

Lemma split_two_iff_count (sep : ascii) (s : string) :
  length (Py.split sep s) = 2 <-> Py.count sep s = 1.
Proof. rewrite split_length. lia. Qed.

Lemma split_two_pieces (sep : ascii) (s : string) :
  length (Py.split sep s) = 2 ->
  exists p q, Py.split sep s = [p; q].
Proof.
  destruct (Py.split sep s) as [|p [|q [|r l]]]; simpl; try discriminate.
  intros _. now exists p, q.
Qed.

Lemma startswith_cons (s : string) (c : ascii) (p : string) :
  Py.startswith s (String c p) = true ->
  exists s', s = String c s' /\ Py.startswith s' p = true.
Proof.
  unfold Py.startswith. destruct s as [|a s]; simpl; [discriminate |].
  destruct (ascii_dec c a) as [->|]; [| discriminate].
  intros H. now exists s.
Qed.

(** ** DOI *)

(** C2, as stated, fails: the string ["10.1000/"] is accepted although its
    second piece is empty. *)
Lemma check_doi_empty_suffix :
  ~ (check_doi "10.1000/" = Ok "10.1000/" <->
     Py.startswith "10.1000/" "10." = true
     /\ exists p q, Py.split "/" "10.1000/" = [p; q] /\ p <> "" /\ q <> "").
Proof.
  intros [H _]. destruct (H eq_refl) as (_ & p & q & E & _ & Hq).
  vm_compute in E. injection E as _ <-. now apply Hq.
Qed.

(** C2, amended: [check_doi] returns its argument exactly when it starts
    with ["10."] and splits on ["/"] into two pieces, that is, contains one
    slash; the first piece is then non-empty, the second may be empty.
    The prefix test is made first, so a string failing both tests gets the
    prefix error. *)
Theorem check_doi_spec (raw : string) :
  (check_doi raw = Ok raw <->
     Py.startswith raw "10." = true /\ length (Py.split "/" raw) = 2)
  /\ (length (Py.split "/" raw) = 2 <-> Py.count "/" raw = 1)
  /\ (Py.startswith raw "10." = false ->
        check_doi raw = Raise (ValueError doi_prefix_msg))
  /\ (Py.startswith raw "10." = true -> length (Py.split "/" raw) <> 2 ->
        check_doi raw = Raise (ValueError doi_format_msg))
  /\ (check_doi raw = Ok raw ->
        exists p q, Py.split "/" raw = [p; q] /\ p <> ""
                    /\ raw = p +:+ "/" +:+ q).
Proof.
  assert (Hok : check_doi raw = Ok raw <->
     Py.startswith raw "10." = true /\ length (Py.split "/" raw) = 2).
  { unfold check_doi.
    destruct (Py.startswith raw "10."); simpl.
    - destruct (Nat.eqb_spec (length (Py.split "/" raw)) 2); simpl;
        split; try tauto; try discriminate.
    - split; [discriminate | intros [? _]; discriminate]. }
  split; [exact Hok |].
  split; [apply split_two_iff_count |].
  split; [| split].
  - intros H. unfold check_doi. now rewrite H.
  - intros H L. unfold check_doi. rewrite H. simpl.
    apply Nat.eqb_neq in L. now rewrite L.
  - intros H. apply Hok in H as [Hp L].
    destruct (split_two_pieces _ _ L) as (p & q & E).
    exists p, q. split; [exact E |].
    apply split_two in E as (E & _ & _).
    split; [| exact E].
    intros ->. apply startswith_cons in Hp as (s' & Hs & _).
    rewrite Hs in E. rewrite str_app_nil_l in E. discriminate.
Qed.

(** The examples of the specification for DOIs. *)
Lemma check_doi_spec_witness :
  check_doi "10.1000/abc" = Ok "10.1000/abc"
  /\ check_doi "11.1000/abc" = Raise (ValueError doi_prefix_msg)
  /\ check_doi "10.1000/abc/def" = Raise (ValueError doi_format_msg)
  /\ check_doi "11" = Raise (ValueError doi_prefix_msg).
Proof.
  split; [| split; [| split]].
  - apply (proj1 (check_doi_spec "10.1000/abc")). split; reflexivity.
  - apply (proj1 (proj2 (proj2 (check_doi_spec "11.1000/abc")))).
    reflexivity.
  - apply (proj1 (proj2 (proj2 (proj2 (check_doi_spec "10.1000/abc/def")))));
      [reflexivity | discriminate].
  - apply (proj1 (proj2 (proj2 (check_doi_spec "11")))). reflexivity.
Defined.

(** ** Author *)

(** C3, as stated, fails: [" Madonna"] has one whitespace-separated token
    and is accepted, the leading space being taken for the separator. *)
Lemma check_author_leading_space :
  ~ (length (Py.split_ws " Madonna") <> 2 ->
     is_ok (check_author " Madonna") = false).
Proof. intros H. vm_compute in H. specialize (H ltac:(discriminate)). discriminate. Qed.

(** The same with another separator: a tab is whitespace but does not
    split the value, so three tokens with one space between them pass. *)
Example check_author_tab :
  let s := "Jane Doe" +:+ String (ascii_of_nat 9) "Smith" in
  check_author s = Ok s
  /\ length (Py.split_ws s) = 3 /\ length (Py.split_each_ws s) = 3.
Proof. vm_compute. auto. Qed.

(** C3, amended: [check_author] returns its argument exactly when it
    contains exactly one space character, that is, when it is two pieces
    without space, possibly empty, joined by a space; every other string
    raises the format error. *)
Theorem check_author_spec (raw : string) :
  (check_author raw = Ok raw <-> Py.count " " raw = 1)
  /\ (Py.count " " raw <> 1 ->
        check_author raw = Raise (ValueError author_msg))
  /\ (check_author raw = Ok raw <->
        exists first last, raw = first +:+ " " +:+ last
          /\ Py.count " " first = 0 /\ Py.count " " last = 0).
Proof.
  assert (Hok : check_author raw = Ok raw <-> Py.count " " raw = 1).
  { rewrite <- split_two_iff_count. unfold check_author.
    destruct (Nat.eqb_spec (length (Py.split " " raw)) 2); simpl;
      split; try tauto; try discriminate. }
  split; [exact Hok | split].
  - intros H. unfold check_author.
    rewrite <- split_two_iff_count in H. apply Nat.eqb_neq in H.
    now rewrite H.
  - rewrite Hok. split.
    + intros H. apply split_two_iff_count in H.
      destruct (split_two_pieces _ _ H) as (p & q & E).
      exists p, q. now apply split_two in E.
    + intros (p & q & -> & Hp & Hq).
      rewrite !count_app, Hp, Hq. reflexivity.
Qed.

(** The examples of the specification for authors, and strings with a
    leading or a trailing space. *)
Lemma check_author_spec_witness :
  check_author "Jane Doe" = Ok "Jane Doe"
  /\ check_author "Madonna" = Raise (ValueError author_msg)
  /\ check_author "A B C" = Raise (ValueError author_msg)
  /\ check_author "Madonna " = Ok "Madonna "
  /\ check_author " Jane Doe" = Raise (ValueError author_msg).
Proof.
  split; [| split; [| split; [| split]]].
  - apply (proj1 (check_author_spec "Jane Doe")). reflexivity.
  - apply (proj1 (proj2 (check_author_spec "Madonna"))). discriminate.
  - apply (proj1 (proj2 (check_author_spec "A B C"))). discriminate.
  - apply (proj1 (check_author_spec "Madonna ")). reflexivity.
  - apply (proj1 (proj2 (check_author_spec " Jane Doe"))). discriminate.
Defined.

(** ** Name *)

(** C4, as stated, fails: ["org/"] is accepted although its second piece
    is empty. *)
Lemma check_name_empty_segment :
  ~ (is_ok (check_name "org/") = true ->
     (length (Py.split "/" "org/") = 2 \/ length (Py.split "/" "org/") = 3)
     /\ Forall (fun piece => piece <> "") (Py.split "/" "org/")).
Proof.
  intros H. destruct (H eq_refl) as [_ F]. vm_compute in F.
  inversion F as [|? ? _ F']. inversion F' as [|? ? Hne _]. now apply Hne.
Qed.

(** C4, amended: [check_name] returns its argument exactly when it splits
    on ["/"] into two or three pieces, empty or not, that is, contains one
    or two slashes; every other string raises the format error. *)
Theorem check_name_spec (value : string) :
  (check_name value = Ok value <->
     length (Py.split "/" value) = 2 \/ length (Py.split "/" value) = 3)
  /\ (check_name value = Ok value <->
     Py.count "/" value = 1 \/ Py.count "/" value = 2)
  /\ (~ (Py.count "/" value = 1 \/ Py.count "/" value = 2) ->
     check_name value = Raise (ValueError name_msg)).
Proof.
  assert (Hok : check_name value = Ok value <->
     length (Py.split "/" value) = 2 \/ length (Py.split "/" value) = 3).
  { unfold check_name. simpl.
    destruct (Nat.eqb_spec (length (Py.split "/" value)) 2);
    destruct (Nat.eqb_spec (length (Py.split "/" value)) 3); simpl;
      split; try tauto; try discriminate. }
  split; [exact Hok | split].
  - rewrite Hok, split_length. lia.
  - intros H. pose proof (split_length "/" value) as L.
    unfold check_name. simpl.
    destruct (Nat.eqb_spec (length (Py.split "/" value)) 2);
    destruct (Nat.eqb_spec (length (Py.split "/" value)) 3); simpl;
      try reflexivity; exfalso; lia.
Qed.

(** The examples of the specification for names. *)
Lemma check_name_spec_witness :
  check_name "org" = Raise (ValueError name_msg)
  /\ check_name "org/tool" = Ok "org/tool"
  /\ check_name "org/sub/tool" = Ok "org/sub/tool"
  /\ check_name "a/b/c/d" = Raise (ValueError name_msg).
Proof.
  split; [| split; [| split]].
  - apply (proj2 (proj2 (check_name_spec "org"))). simpl. lia.
  - apply (proj1 (check_name_spec "org/tool")). left. reflexivity.
  - apply (proj1 (check_name_spec "org/sub/tool")). right. reflexivity.
  - apply (proj2 (proj2 (check_name_spec "a/b/c/d"))). simpl. lia.
Defined.

(** ** The container pattern *)

Lemma all_in_app (set : ascii -> bool) (u v : string) :
  Re.all_in set (u +:+ v) = Re.all_in set u && Re.all_in set v.
Proof.
  induction u as [|c u IH]; [reflexivity |].
  rewrite str_app_cons. simpl. now rewrite IH, andb_assoc.
Qed.

(** What a greedy repetition followed by [k] accepts: a run [u] of
    characters of the set, of a permitted length, and a rest [v] that [k]
    accepts.  Backtracking makes every such decomposition reachable. *)
Lemma repeat_greedy_spec (set : ascii -> bool) (k : string -> bool)
    (s : string) (lo : nat) (hi : option nat) :
  Re.repeat_greedy set lo hi k s = true <->
  exists u v, s = u +:+ v /\ Re.all_in set u = true
    /\ lo <= String.length u
    /\ (forall h, hi = Some h -> String.length u <= h)
    /\ k v = true.
Proof.
  revert lo hi. induction s as [|c s IH]; intros lo hi.
  - simpl. rewrite andb_true_iff, Nat.eqb_eq. split.
    + intros [-> Hk]. exists "", "". repeat split; auto. intros; simpl; lia.
    + intros (u & v & E & _ & Hlo & _ & Hk).
      symmetry in E. apply str_app_nil_inv in E as [-> ->].
      simpl in Hlo. split; [lia | exact Hk].
  - cbn [Re.repeat_greedy].
    assert (Hstop : (lo =? 0)%nat && k (String c s) = true ->
      exists u v, String c s = u +:+ v /\ Re.all_in set u = true
        /\ lo <= String.length u
        /\ (forall h, hi = Some h -> String.length u <= h) /\ k v = true).
    { rewrite andb_true_iff, Nat.eqb_eq. intros [-> Hk].
      exists "", (String c s). repeat split; auto. intros; simpl; lia. }
    split.
    + destruct (set c && Re.may_take hi) eqn:Hc; [| exact Hstop].
      rewrite orb_true_iff. intros [H | H]; [| now apply Hstop].
      apply andb_true_iff in Hc as [Hset Hm].
      apply IH in H as (u & v & -> & Hu & Hlo & Hhi & Hk).
      exists (String c u), v. rewrite str_app_cons. simpl.
      rewrite Hset, Hu. repeat split; auto; [lia |].
      intros h ->. destruct h as [|h]; [discriminate |].
      specialize (Hhi h eq_refl). lia.
    + intros (u & v & E & Hu & Hlo & Hhi & Hk).
      destruct u as [|a u].
      * rewrite str_app_nil_l in E. subst v. simpl in Hlo.
        assert (Hz : (lo =? 0)%nat && k (String c s) = true).
        { rewrite andb_true_iff, Nat.eqb_eq. split; [lia | exact Hk]. }
        rewrite Hz. now destruct (set c && Re.may_take hi); rewrite ?orb_true_r.
      * rewrite str_app_cons in E. injection E as <- ->.
        simpl in Hu, Hlo. apply andb_true_iff in Hu as [Hset Hu].
        assert (Hm : Re.may_take hi = true).
        { destruct hi as [[|h]|]; try reflexivity.
          specialize (Hhi 0 eq_refl). simpl in Hhi. lia. }
        rewrite Hset, Hm. simpl. rewrite orb_true_iff. left.
        apply IH. exists u, v. repeat split; auto; [lia |].
        intros h Eh. destruct hi as [h'|]; [| discriminate].
        injection Eh as <-. specialize (Hhi h' eq_refl). simpl in *. lia.
Qed.

Lemma dollar_spec (s : string) :
  Re.dollar s = true <-> s = "" \/ s = String Re.newline "".
Proof.
  destruct s as [|c [|d s]]; simpl.
  - split; auto.
  - rewrite Ascii.eqb_eq. split.
    + intros ->. now right.
    + intros [H | H]; [discriminate | now injection H].
  - split; [discriminate | intros [H | H]; discriminate].
Qed.

(** A run of at most one slash is empty or one slash. *)
Lemma slash_run (u : string) :
  Re.all_in Re.slash u = true -> String.length u <= 1 ->
  u = "" \/ u = "/".
Proof.
  destruct u as [|c [|d u]]; simpl; auto.
  - rewrite andb_true_r. unfold Re.slash. rewrite Ascii.eqb_eq.
    intros -> _. now right.
  - intros _ H. lia.
Qed.

(** A run of exactly one colon. *)
Lemma colon_run (u : string) :
  Re.all_in Re.colon u = true -> 1 <= String.length u ->
  String.length u <= 1 -> u = ":".
Proof.
  destruct u as [|c [|d u]]; simpl; try lia.
  rewrite andb_true_r. unfold Re.colon. rewrite Ascii.eqb_eq.
  now intros ->.
Qed.

Lemma nonempty_length (u : string) : u <> "" <-> 1 <= String.length u.
Proof.
  destruct u; simpl; split; try lia; try congruence.
Qed.

(** What [re.match] accepts for the container pattern: the strings of the
    intended shape, and those strings followed by one newline, which [$]
    lets through. *)
Lemma match_container_spec (s : string) :
  Re.match_container s = true <->
  container_shape s
  \/ exists t, s = t +:+ String Re.newline "" /\ container_shape t.
Proof.
  unfold Re.match_container, Re.container_pattern. cbn [Re.match_seq].
  cbn [Re.item_set Re.item_min Re.item_max]. split.
  - intros H.
    apply repeat_greedy_spec in H as (reg & v1 & -> & Hreg & _ & _ & H).
    apply repeat_greedy_spec in H as (sl & v2 & -> & Hsl & _ & Lsl & H).
    apply repeat_greedy_spec in H as (repo & v3 & -> & Hrepo & Lrepo & _ & H).
    apply repeat_greedy_spec in H as (col & v4 & -> & Hcol & Lcol & Lcol' & H).
    apply repeat_greedy_spec in H as (tag & v5 & -> & Htag & Ltag & _ & H).
    apply dollar_spec in H.
    pose proof (slash_run _ Hsl (Lsl 1 eq_refl)) as Esl.
    pose proof (colon_run _ Hcol Lcol (Lcol' 1 eq_refl)) as Ecol.
    subst col. apply nonempty_length in Lrepo, Ltag.
    destruct H as [-> | ->].
    + left. exists reg, sl, repo, tag. rewrite str_app_nil_r. auto 10.
    + right. exists (reg +:+ sl +:+ repo +:+ ":" +:+ tag). split.
      * now rewrite !str_app_assoc.
      * exists reg, sl, repo, tag. auto 10.
  - assert (Hshape : forall t v, container_shape t -> Re.dollar v = true ->
      Re.repeat_greedy Re.letter 0 None
        (Re.repeat_greedy Re.slash 0 (Some 1)
          (Re.repeat_greedy Re.repo_char 1 None
            (Re.repeat_greedy Re.colon 1 (Some 1)
              (Re.repeat_greedy Re.tag_char 1 None Re.dollar))))
        (t +:+ v) = true).
    { intros t v (reg & sl & repo & tag & -> & Hreg & Hsl & Nrepo & Hrepo
                  & Ntag & Htag) Hv.
      rewrite !str_app_assoc.
      apply repeat_greedy_spec. exists reg, (sl +:+ repo +:+ ":" +:+ tag +:+ v).
      repeat split; auto; [lia | discriminate |].
      apply repeat_greedy_spec. exists sl, (repo +:+ ":" +:+ tag +:+ v).
      repeat split; auto; [now destruct Hsl as [-> | ->] | lia | |].
      { intros h Eh. injection Eh as <-. now destruct Hsl as [-> | ->]; simpl; lia. }
      apply repeat_greedy_spec. exists repo, (":" +:+ tag +:+ v).
      repeat split; auto; [now apply nonempty_length | discriminate |].
      apply repeat_greedy_spec. exists ":", (tag +:+ v).
      repeat split; auto; [intros h Eh; injection Eh as <-; simpl; lia |].
      apply repeat_greedy_spec. exists tag, v.
      repeat split; auto; [now apply nonempty_length | discriminate]. }
    intros [H | (t & -> & H)].
    + rewrite <- (str_app_nil_r s). now apply Hshape.
    + apply Hshape; [exact H | reflexivity].
Qed.

Lemma check_container_ok (value : string) :
  check_container value = Ok value <-> Re.match_container value = true.
Proof.
  unfold check_container. destruct (Re.match_container value); simpl;
    split; auto; discriminate.
Qed.

(** The check accepts a string exactly when it has the shape, or has it
    once a final newline is taken off. *)
Lemma check_container_spec (value : string) :
  check_container value = Ok value <->
  container_shape value
  \/ exists t, value = t +:+ String Re.newline "" /\ container_shape t.
Proof. rewrite check_container_ok. apply match_container_spec. Qed.

Lemma all_in_weaken (set set' : ascii -> bool) (u : string) :
  (forall c, set c = true -> set' c = true) ->
  Re.all_in set u = true -> Re.all_in set' u = true.
Proof.
  intros Hw. induction u as [|c u IH]; simpl; [auto |].
  rewrite !andb_true_iff. intros [Hc Hu]. auto.
Qed.

Lemma container_shape_chars (s : string) :
  container_shape s -> Re.all_in shape_char s = true.
Proof.
  intros (reg & sl & repo & tag & -> & Hreg & Hsl & _ & Hrepo & _ & Htag).
  rewrite !all_in_app, !andb_true_iff. repeat split.
  - apply (all_in_weaken Re.letter); [| exact Hreg].
    intros c Hc. unfold shape_char, Re.repo_char. now rewrite Hc.
  - now destruct Hsl as [-> | ->].
  - apply (all_in_weaken Re.repo_char); [| exact Hrepo].
    intros c Hc. unfold shape_char. now rewrite Hc.
  - apply (all_in_weaken Re.tag_char); [| exact Htag].
    intros c Hc. unfold shape_char. rewrite Hc. now rewrite orb_true_r.
Qed.

(** The container examples of the specification. *)
Example check_container_examples :
  check_container "threshold:1.1.1" = Ok "threshold:1.1.1"
  /\ check_container "wipp/threshold:1.1.1" = Ok "wipp/threshold:1.1.1"
  /\ check_container "threshold" = Raise (ValueError container_msg).
Proof. vm_compute. auto. Qed.

(** C5: the check accepts every string of the described shape, but it is
    not true that it accepts only those: ["threshold:1.1.1"] followed by a
    newline passes, because [$] also matches before a final newline. *)
Theorem check_container_trailing_newline :
  let value := "threshold:1.1.1" +:+ String Re.newline "" in
  check_container value = Ok value /\ ~ container_shape value.
Proof.
  split; [reflexivity |].
  intros H. apply container_shape_chars in H. vm_compute in H. discriminate.
Qed.

(** C10: a slash, a repository, a colon and a tag pass the check: the
    registry part of the pattern matches no character and the optional
    slash is taken. *)
Theorem check_container_leading_slash (repo tag : string) :
  repo <> "" -> Re.all_in Re.repo_char repo = true ->
  tag <> "" -> Re.all_in Re.tag_char tag = true ->
  check_container ("/" +:+ repo +:+ ":" +:+ tag)
  = Ok ("/" +:+ repo +:+ ":" +:+ tag).
Proof.
  intros Nrepo Hrepo Ntag Htag. apply check_container_spec. left.
  exists "", "/", repo, tag. rewrite str_app_nil_l. auto 10.
Qed.

Lemma check_container_leading_slash_witness :
  check_container "/threshold:1.1.1" = Ok "/threshold:1.1.1".
Proof.
  apply (check_container_leading_slash "threshold" "1.1.1");
    [discriminate | reflexivity | discriminate | reflexivity].
Defined.

(** ** Equality of the root models *)

Section Equality.

Context {Version Url : Type}.

(** C6: [Author.__eq__] and [DOI.__eq__] return whether the underlying
    strings are equal when the other value is an instance of the same
    class or a plain string, and raise [TypeError] for a value of any
    other class. *)
Theorem eq_dispatch (a : Author) (d : DOI) :
  (forall b : Author, exists v,
      Author_eq a (@RAuthor Version Url b) = Ok v
      /\ (v = true <-> author_root a = author_root b))
  /\ (forall s : string, exists v,
      Author_eq a (@RStr Version Url s) = Ok v
      /\ (v = true <-> s = author_root a))
  /\ (forall other : raw Version Url,
      (forall b, other <> RAuthor b) -> (forall s, other <> RStr s) ->
      Author_eq a other = Raise (TypeError eq_msg))
  /\ (forall e : DOI, exists v,
      DOI_eq d (@RDOI Version Url e) = Ok v
      /\ (v = true <-> doi_root d = doi_root e))
  /\ (forall s : string, exists v,
      DOI_eq d (@RStr Version Url s) = Ok v
      /\ (v = true <-> s = doi_root d))
  /\ (forall other : raw Version Url,
      (forall e, other <> RDOI e) -> (forall s, other <> RStr s) ->
      DOI_eq d other = Raise (TypeError eq_msg)).
Proof.
  repeat apply conj.
  - intros b. eexists. split; [reflexivity |]. apply String.eqb_eq.
  - intros s. eexists. split; [reflexivity |].
    rewrite String.eqb_eq. split; congruence.
  - intros other Ha Hs. destruct other; try reflexivity.
    + now destruct (Hs s).
    + now destruct (Ha a0).
  - intros e. eexists. split; [reflexivity |]. apply String.eqb_eq.
  - intros s. eexists. split; [reflexivity |].
    rewrite String.eqb_eq. split; congruence.
  - intros other Hd Hs. destruct other; try reflexivity.
    + now destruct (Hs s).
    + now destruct (Hd d0).
Qed.

End Equality.

(** The equality examples of the specification; [42] is not a string and
    not an [Author]. *)
Lemma eq_dispatch_witness :
  Author_eq (mkAuthor "Jane Doe") (@RStr unit unit "Jane Doe") = Ok true
  /\ Author_eq (mkAuthor "Jane Doe") (@RAuthor unit unit (mkAuthor "Jane Doe"))
     = Ok true
  /\ Author_eq (mkAuthor "Jane Doe") (@RInt unit unit 42)
     = Raise (TypeError eq_msg)
  /\ DOI_eq (mkDOI "10.1000/abc") (@RInt unit unit 42)
     = Raise (TypeError eq_msg).
Proof.
  split; [reflexivity | split; [reflexivity | split]].
  - apply (proj1 (proj2 (proj2
      (@eq_dispatch unit unit (mkAuthor "Jane Doe") (mkDOI "10.1000/abc")))));
      discriminate.
  - apply (proj2 (proj2 (proj2 (proj2 (proj2
      (@eq_dispatch unit unit (mkAuthor "Jane Doe") (mkDOI "10.1000/abc")))))));
      discriminate.
Defined.

(** ** The validation pipeline *)

Lemma ap_inr {A B} (f : checked (A -> B)) (x : checked A) (b : B) :
  f <*> x = inr b -> exists g a, f = inr g /\ x = inr a /\ b = g a.
Proof.
  destruct f as [e|g], x as [e'|a]; simpl; try discriminate.
  intros H. injection H as <-. now exists g, a.
Qed.

Lemma ap_errors_l {A B} (f : checked (A -> B)) (x : checked A) (e : error) :
  In e (errors_of f) -> In e (errors_of (f <*> x)).
Proof.
  destruct f as [es|g], x as [es'|a]; simpl; auto; try contradiction.
  intros H. apply in_or_app. now left.
Qed.

Lemma ap_errors_r {A B} (f : checked (A -> B)) (x : checked A) (e : error) :
  In e (errors_of x) -> In e (errors_of (f <*> x)).
Proof.
  destruct f as [es|g], x as [es'|a]; simpl; auto; try contradiction.
  intros H. apply in_or_app. now right.
Qed.

Lemma errors_inl {A} (c : checked A) (e : error) :
  In e (errors_of c) -> exists es, c = inl es /\ In e es.
Proof. destruct c as [es|a]; simpl; [eauto | contradiction]. Qed.

(** The validators of this module return the value they were given. *)
Lemma check_name_id (s s' : string) : check_name s = Ok s' -> s' = s.
Proof. unfold check_name. destruct (negb _); congruence. Qed.

Lemma check_container_id (s s' : string) : check_container s = Ok s' -> s' = s.
Proof. unfold check_container. destruct (negb _); congruence. Qed.

Lemma check_author_id (s s' : string) : check_author s = Ok s' -> s' = s.
Proof. unfold check_author. destruct (negb _); congruence. Qed.

Lemma check_doi_id (s s' : string) : check_doi s = Ok s' -> s' = s.
Proof. unfold check_doi. repeat destruct (negb _); congruence. Qed.

Section Pipeline.

Context {Version Url : Type}.
Variable version_validate : raw Version Url -> option Version.
Variable url_validate : raw Version Url -> option Url.
Variable email_validate : string -> option string.

Local Abbreviation construct' :=
  (construct version_validate url_validate email_validate).
Local Abbreviation validate' :=
  (validate version_validate url_validate email_validate).

(** Construction succeeds exactly when every field does, and the record
    holds the values of the fields. *)
Lemma construct_fields (m : gmap string (raw Version Url))
    (r : Metadata Version Url) :
  construct' m = inr r <->
  f_specVersion version_validate m = inr (specVersion r)
  /\ f_name m = inr (name r)
  /\ f_version version_validate m = inr (version r)
  /\ f_container m = inr (container r)
  /\ f_entrypoint m = inr (entrypoint r)
  /\ f_title m = inr (title r)
  /\ f_description m = inr (description r)
  /\ f_author m = inr (author r)
  /\ f_contact url_validate email_validate m = inr (contact r)
  /\ f_repository url_validate m = inr (repository r)
  /\ f_documentation url_validate m = inr (documentation r)
  /\ f_citation m = inr (citation r).
Proof.
  unfold construct. split.
  - intros H.
    apply ap_inr in H as (g12 & a12 & H & E12 & ->).
    apply ap_inr in H as (g11 & a11 & H & E11 & ->).
    apply ap_inr in H as (g10 & a10 & H & E10 & ->).
    apply ap_inr in H as (g9 & a9 & H & E9 & ->).
    apply ap_inr in H as (g8 & a8 & H & E8 & ->).
    apply ap_inr in H as (g7 & a7 & H & E7 & ->).
    apply ap_inr in H as (g6 & a6 & H & E6 & ->).
    apply ap_inr in H as (g5 & a5 & H & E5 & ->).
    apply ap_inr in H as (g4 & a4 & H & E4 & ->).
    apply ap_inr in H as (g3 & a3 & H & E3 & ->).
    apply ap_inr in H as (g2 & a2 & H & E2 & ->).
    apply ap_inr in H as (g1 & a1 & H & E1 & ->).
    injection H as <-. simpl. auto 20.
  - destruct r; simpl.
    intros (-> & -> & -> & -> & -> & -> & -> & -> & -> & -> & -> & ->).
    reflexivity.
Qed.

Lemma validate_inr (m : gmap string (raw Version Url))
    (r : Metadata Version Url) :
  validate' m = inr r <->
  exists r0, construct' m = inr r0 /\ r = default_title r0.
Proof.
  unfold validate. destruct (construct' m) as [es|r0]; split.
  - discriminate.
  - intros (r0 & H & _). discriminate.
  - intros H. injection H as <-. now exists r0.
  - intros (r1 & H & ->). now injection H as <-.
Qed.

(** The model validator leaves every field but [title] as it is, fills an
    empty [title] with [name], and changes nothing when run again. *)
Lemma default_title_fields (r : Metadata Version Url) :
  specVersion (default_title r) = specVersion r
  /\ name (default_title r) = name r
  /\ version (default_title r) = version r
  /\ container (default_title r) = container r
  /\ entrypoint (default_title r) = entrypoint r
  /\ description (default_title r) = description r
  /\ author (default_title r) = author r
  /\ contact (default_title r) = contact r
  /\ repository (default_title r) = repository r
  /\ documentation (default_title r) = documentation r
  /\ citation (default_title r) = citation r
  /\ title (default_title r)
     = Some (match title r with Some t => t | None => name r end).
Proof. unfold default_title. destruct (title r) eqn:E; simpl; auto 20. Qed.

Lemma default_title_idem (r : Metadata Version Url) :
  default_title (default_title r) = default_title r.
Proof. unfold default_title. destruct (title r) eqn:E; simpl; now rewrite ?E. Qed.

Lemma f_title_absent (m : gmap string (raw Version Url)) :
  m !! "title" = None \/ m !! "title" = Some RNone ->
  f_title m = inr None.
Proof.
  unfold f_title, with_default_None. now intros [-> | ->].
Qed.

(** C1: when the other eleven fields pass their checks and [title] is
    not in the mapping or is [None], validation succeeds with [title] set
    to the name; and a record returned by validation always has a title. *)
Theorem validate_default_title (m : gmap string (raw Version Url)) :
  (forall v1 n v2 c e d a ct rp doc cit,
      f_specVersion version_validate m = inr v1 ->
      f_name m = inr n ->
      f_version version_validate m = inr v2 ->
      f_container m = inr c ->
      f_entrypoint m = inr e ->
      f_description m = inr d ->
      f_author m = inr a ->
      f_contact url_validate email_validate m = inr ct ->
      f_repository url_validate m = inr rp ->
      f_documentation url_validate m = inr doc ->
      f_citation m = inr cit ->
      m !! "title" = None \/ m !! "title" = Some RNone ->
      validate' m = inr (mkMetadata v1 n v2 c e (Some n) d a ct rp doc cit))
  /\ (forall r, validate' m = inr r -> exists t, title r = Some t).
Proof.
  split.
  - intros v1 n v2 c e d a ct rp doc cit H1 H2 H3 H4 H5 H7 H8 H9 H10 H11 H12 Ht.
    apply f_title_absent in Ht.
    assert (Hc : construct' m
                 = inr (mkMetadata v1 n v2 c e None d a ct rp doc cit)).
    { apply construct_fields. simpl. auto 20. }
    unfold validate. now rewrite Hc.
  - intros r H. apply validate_inr in H as (r0 & _ & ->).
    destruct (default_title_fields r0) as (_&_&_&_&_&_&_&_&_&_&_& Ht).
    eauto.
Qed.

(** C8: a validated record is the constructed record after one run of the
    model validator; every field but [title] holds the value its field
    check produced, and [title] holds the string its check produced or,
    when the check produced [None], the name; running the validator again
    changes nothing. *)
Theorem default_title_frame (m : gmap string (raw Version Url))
    (r : Metadata Version Url) :
  validate' m = inr r ->
  (exists r0, construct' m = inr r0 /\ r = default_title r0)
  /\ default_title r = r
  /\ f_specVersion version_validate m = inr (specVersion r)
  /\ f_name m = inr (name r)
  /\ f_version version_validate m = inr (version r)
  /\ f_container m = inr (container r)
  /\ f_entrypoint m = inr (entrypoint r)
  /\ f_description m = inr (description r)
  /\ f_author m = inr (author r)
  /\ f_contact url_validate email_validate m = inr (contact r)
  /\ f_repository url_validate m = inr (repository r)
  /\ f_documentation url_validate m = inr (documentation r)
  /\ f_citation m = inr (citation r)
  /\ (exists t0, f_title m = inr t0
        /\ title r = Some (match t0 with Some t => t | None => name r end)).
Proof.
  intros H. apply validate_inr in H as (r0 & Hc & ->).
  split; [now exists r0 |]. split; [apply default_title_idem |].
  apply construct_fields in Hc
    as (H1 & H2 & H3 & H4 & H5 & H6 & H7 & H8 & H9 & H10 & H11 & H12).
  destruct (default_title_fields r0)
    as (-> & -> & -> & -> & -> & -> & -> & -> & -> & -> & -> & Ht).
  repeat (split; [assumption |]).
  exists (title r0). split; [exact H6 | exact Ht].
Qed.

Lemma validate_errors (m : gmap string (raw Version Url)) (e : error) :
  In e (errors_of (construct' m)) ->
  exists es, validate' m = inl es /\ In e es.
Proof.
  intros H. apply errors_inl in H as (es & E & H).
  exists es. unfold validate. now rewrite E.
Qed.

Lemma required_insert_ne {A} (field k : string) (x : raw Version Url)
    (v : raw Version Url -> checked A) (m : gmap string (raw Version Url)) :
  k <> field -> required field v (<[k := x]> m) = required field v m.
Proof. intros Hne. unfold required. now rewrite lookup_insert_ne. Qed.

Lemma with_default_None_insert_ne {A} (field k : string) (x : raw Version Url)
    (v : raw Version Url -> checked (option A))
    (m : gmap string (raw Version Url)) :
  k <> field ->
  with_default_None field v (<[k := x]> m) = with_default_None field v m.
Proof. intros Hne. unfold with_default_None. now rewrite lookup_insert_ne. Qed.

Ltac other_key :=
  first [ rewrite required_insert_ne by done
        | rewrite with_default_None_insert_ne by done ].


(** *** Validating the field values of a record *)

Lemma fields_of_lookup (r : Metadata Version Url) :
  fields_of r !! "specVersion" = Some (RVersion (specVersion r))
  /\ fields_of r !! "name" = Some (RStr (name r))
  /\ fields_of r !! "version" = Some (RVersion (version r))
  /\ fields_of r !! "container" = Some (RStr (container r))
  /\ fields_of r !! "entrypoint" = Some (entrypoint_raw (entrypoint r))
  /\ fields_of r !! "title" = Some (opt_raw RStr (title r))
  /\ fields_of r !! "description" = Some (opt_raw RStr (description r))
  /\ fields_of r !! "author" = Some (RList (map RAuthor (author r)))
  /\ fields_of r !! "contact" = Some (opt_raw contact_raw (contact r))
  /\ fields_of r !! "repository" = Some (RUrl (repository r))
  /\ fields_of r !! "documentation" = Some (opt_raw RUrl (documentation r))
  /\ fields_of r !! "citation" = Some (opt_raw RDOI (citation r)).
Proof.
  unfold fields_of.
  repeat apply conj;
    repeat (rewrite lookup_insert_ne by done); apply lookup_insert_eq.
Qed.

(** Instances of [Author] are taken as they are. *)
Lemma author_items_instances (field : string) (l : list Author) (i : nat) :
  author_items field i (map (@RAuthor Version Url) l) = inr l.
Proof.
  revert i. induction l as [|a l IH]; intros i; simpl; [reflexivity |].
  now rewrite IH.
Qed.

(** Where the values of a constructed record come from. *)
Lemma checked_str_origin (field : string) (check : string -> result string)
    (m : gmap string (raw Version Url)) (s : string) :
  required field (checked_str field check) m = inr s ->
  exists s0, check s0 = Ok s.
Proof.
  unfold required, checked_str, str_value, after.
  destruct (m !! field) as [[]|]; try discriminate.
  destruct (check s0) as [s'|e] eqn:E; [| discriminate].
  intros H. injection H as <-. now exists s0.
Qed.

Lemma version_origin (field : string) (m : gmap string (raw Version Url))
    (v : Version) :
  required field (version_value version_validate field) m = inr v ->
  exists x, version_validate x = Some v.
Proof.
  unfold required, version_value. destruct (m !! field) as [x|]; [| discriminate].
  destruct (version_validate x) as [v'|] eqn:E; [| discriminate].
  intros H. injection H as <-. now exists x.
Qed.

Lemma url_origin (field : string) (x : raw Version Url) (u : Url) :
  url_value url_validate field x = inr u -> url_validate x = Some u.
Proof.
  unfold url_value. destruct (url_validate x); [| discriminate]. congruence.
Qed.

Lemma contact_origin (field : string) (x : raw Version Url) (c : contact_t Url) :
  contact_value url_validate email_validate field x = inr c ->
  match c with
  | CEmail e => exists s, email_validate s = Some e
  | CUrl u => exists y, url_validate y = Some u
  end.
Proof.
  unfold contact_value.
  destruct (match x with RStr s => email_validate s | _ => None end)
    as [e|] eqn:E.
  - intros H. injection H as <-. destruct x; try discriminate. now exists s.
  - destruct (url_validate x) as [u|] eqn:E'; [| discriminate].
    intros H. injection H as <-. now exists x.
Qed.

Lemma nullable_origin {A} (v : raw Version Url -> checked A)
    (x : raw Version Url) (a : A) :
  nullable v x = inr (Some a) -> v x = inr a.
Proof.
  unfold nullable. destruct x; try discriminate;
    destruct (v _) as [e|a'] eqn:E; try discriminate; congruence.
Qed.


End Pipeline.

(** ** The pipeline on a sample document *)

Lemma sample_validate_document : Sample.run Sample.document = inr Sample.record.
Proof. vm_compute. reflexivity. Qed.

Lemma sample_version_instance (x : raw string string) (v : string) :
  Sample.version_validate x = Some v ->
  Sample.version_validate (RVersion v) = Some v.
Proof. reflexivity. Qed.

Lemma sample_url_instance (x : raw string string) (u : string) :
  Sample.url_validate x = Some u -> Sample.url_validate (RUrl u) = Some u.
Proof. reflexivity. Qed.

Lemma sample_email_again (s e : string) :
  Sample.email_validate s = Some e -> Sample.email_validate e = Some e.
Proof.
  unfold Sample.email_validate. destruct (Py.count "@" s =? 1)%nat eqn:E;
    [| discriminate].
  intros H. injection H as <-. now rewrite E.
Qed.

(** The example of the specification: name ["wipp/threshold"], no title. *)
Lemma validate_default_title_witness :
  Sample.run Sample.document = inr Sample.record
  /\ title Sample.record = Some "wipp/threshold".
Proof.
  split; [| reflexivity].
  apply (proj1 (validate_default_title Sample.version_validate
                  Sample.url_validate Sample.email_validate Sample.document));
    try (vm_compute; reflexivity).
  left. vm_compute. reflexivity.
Defined.


Lemma default_title_frame_witness :
  default_title Sample.record = Sample.record
  /\ f_name Sample.document = inr "wipp/threshold"
  /\ f_container Sample.document = inr "wipp/threshold:1.1.1"
  /\ (exists t0, f_title Sample.document = inr t0
        /\ Some "wipp/threshold"
           = Some (match t0 with Some t => t | None => "wipp/threshold" end)).
Proof.
  assert (H : Sample.run Sample.document = inr Sample.record)
    by (vm_compute; reflexivity).
  destruct (default_title_frame Sample.version_validate Sample.url_validate
              Sample.email_validate Sample.document Sample.record H)
    as (_ & Hd & _ & Hn & _ & Hc & _ & _ & _ & _ & _ & _ & _ & Ht).
  exact (conj Hd (conj Hn (conj Hc Ht))).
Defined.


(** * Further properties *)

(** ** Building, printing and comparing the root models *)

(** An [Author] built from a string prints as that string, compares equal
    to it, and is built again from what it prints. *)
Theorem Author_new_roundtrip (raw : string) (a : Author) :
  Author_new raw = Ok a ->
  Author_str a = raw /\ Author_repr a = raw
  /\ Author_eq a (@RStr unit unit raw) = Ok true
  /\ Author_new (Author_str a) = Ok a.
Proof.
  unfold Author_new. destruct (check_author raw) as [v|e] eqn:E; [| discriminate].
  intros H. injection H as <-. pose proof (check_author_id _ _ E) as ->.
  unfold Author_str, Author_repr, Author_eq. simpl.
  rewrite String.eqb_refl, E. auto.
Qed.

Lemma Author_new_roundtrip_witness :
  Author_str (mkAuthor "Jane Doe") = "Jane Doe"
  /\ Author_new (Author_str (mkAuthor "Jane Doe")) = Ok (mkAuthor "Jane Doe").
Proof.
  destruct (Author_new_roundtrip "Jane Doe" (mkAuthor "Jane Doe") eq_refl)
    as (Hs & _ & _ & Hn).
  exact (conj Hs Hn).
Defined.

(** A [DOI] built from a string prints as that string, compares equal to
    it, and is built again from what it prints. *)
Theorem DOI_new_roundtrip (raw : string) (d : DOI) :
  DOI_new raw = Ok d ->
  DOI_str d = raw /\ DOI_repr d = raw
  /\ DOI_eq d (@RStr unit unit raw) = Ok true
  /\ DOI_new (DOI_str d) = Ok d.
Proof.
  unfold DOI_new. destruct (check_doi raw) as [v|e] eqn:E; [| discriminate].
  intros H. injection H as <-. pose proof (check_doi_id _ _ E) as ->.
  unfold DOI_str, DOI_repr, DOI_eq. simpl.
  rewrite String.eqb_refl, E. auto.
Qed.

Lemma DOI_new_roundtrip_witness :
  DOI_str (mkDOI "10.1000/abc") = "10.1000/abc"
  /\ DOI_new (DOI_str (mkDOI "10.1000/abc")) = Ok (mkDOI "10.1000/abc").
Proof.
  destruct (DOI_new_roundtrip "10.1000/abc" (mkDOI "10.1000/abc") eq_refl)
    as (Hs & _ & _ & Hn).
  exact (conj Hs Hn).
Defined.

(** Building fails exactly when the check of the root fails, with the
    error of the check. *)
Lemma Author_new_raise (raw : string) (e : exn) :
  Author_new raw = Raise e <-> check_author raw = Raise e.
Proof.
  unfold Author_new. destruct (check_author raw); split; congruence.
Qed.

Section EqualityLaws.

Context {Version Url : Type}.

(** Between instances of one class [__eq__] is reflexive, symmetric and
    transitive, holds exactly for instances with the same root, and gives
    what the comparison with the printed form of the other instance
    gives; an [Author] and a [DOI] with the same root are not equal: the
    comparison raises, in both directions, as does a comparison with
    [None]. *)
Theorem eq_laws (a b c : Author) (d e f : DOI) :
  Author_eq a (@RAuthor Version Url a) = Ok true
  /\ Author_eq a (@RAuthor Version Url b) = Author_eq b (@RAuthor Version Url a)
  /\ (Author_eq a (@RAuthor Version Url b) = Ok true ->
      Author_eq b (@RAuthor Version Url c) = Ok true ->
      Author_eq a (@RAuthor Version Url c) = Ok true)
  /\ (Author_eq a (@RAuthor Version Url b) = Ok true <-> a = b)
  /\ Author_eq a (@RAuthor Version Url b)
     = Author_eq a (@RStr Version Url (Author_str b))
  /\ DOI_eq d (@RDOI Version Url d) = Ok true
  /\ DOI_eq d (@RDOI Version Url e) = DOI_eq e (@RDOI Version Url d)
  /\ (DOI_eq d (@RDOI Version Url e) = Ok true ->
      DOI_eq e (@RDOI Version Url f) = Ok true ->
      DOI_eq d (@RDOI Version Url f) = Ok true)
  /\ (DOI_eq d (@RDOI Version Url e) = Ok true <-> d = e)
  /\ DOI_eq d (@RDOI Version Url e) = DOI_eq d (@RStr Version Url (DOI_str e))
  /\ Author_eq a (@RDOI Version Url d) = Raise (TypeError eq_msg)
  /\ DOI_eq d (@RAuthor Version Url a) = Raise (TypeError eq_msg)
  /\ Author_eq a (@RNone Version Url) = Raise (TypeError eq_msg)
  /\ DOI_eq d (@RNone Version Url) = Raise (TypeError eq_msg).
Proof.
  destruct a as [a], b as [b], c as [c], d as [d], e as [e], f as [f].
  unfold Author_eq, DOI_eq, Author_str, DOI_str. simpl.
  repeat apply conj; try reflexivity.
  - now rewrite String.eqb_refl.
  - now rewrite String.eqb_sym.
  - intros H1 H2. injection H1 as H1. injection H2 as H2.
    apply String.eqb_eq in H1, H2. subst. now rewrite String.eqb_refl.
  - intros H. injection H as H. apply String.eqb_eq in H. now subst.
  - intros H. injection H as <-. now rewrite String.eqb_refl.
  - now rewrite String.eqb_refl.
  - now rewrite String.eqb_sym.
  - intros H1 H2. injection H1 as H1. injection H2 as H2.
    apply String.eqb_eq in H1, H2. subst. now rewrite String.eqb_refl.
  - intros H. injection H as H. apply String.eqb_eq in H. now subst.
  - intros H. injection H as <-. now rewrite String.eqb_refl.
Qed.

End EqualityLaws.

Lemma eq_laws_witness :
  Author_eq (mkAuthor "Jane Doe") (@RAuthor unit unit (mkAuthor "Jane Doe"))
  = Ok true
  /\ Author_eq (mkAuthor "Jane Doe") (@RDOI unit unit (mkDOI "10.1000/abc"))
     = Raise (TypeError eq_msg).
Proof.
  destruct (@eq_laws unit unit (mkAuthor "Jane Doe") (mkAuthor "Jane Doe")
              (mkAuthor "Jane Doe") (mkDOI "10.1000/abc")
              (mkDOI "10.1000/abc") (mkDOI "10.1000/abc"))
    as (_ & _ & _ & Hiff & _ & _ & _ & _ & _ & _ & Hcross & _).
  split; [apply Hiff; reflexivity | exact Hcross].
Defined.

(** ** What the container check lets through *)

Lemma before_char_facts (x : ascii) :
  before_char x = true ->
  Ascii.eqb x ":" = false /\ Re.digit x = false /\ Ascii.eqb x "." = false.
Proof.
  destruct x as [[] [] [] [] [] [] [] []]; vm_compute; intros H;
    try discriminate; auto.
Qed.

Lemma after_char_facts (x : ascii) :
  after_char x = true -> Ascii.eqb x ":" = false /\ Ascii.eqb x "/" = false.
Proof.
  destruct x as [[] [] [] [] [] [] [] []]; vm_compute; intros H;
    try discriminate; auto.
Qed.

Lemma repo_char_not_slash (x : ascii) :
  Re.repo_char x = true -> Ascii.eqb x "/" = false.
Proof.
  destruct x as [[] [] [] [] [] [] [] []]; vm_compute; intros H;
    try discriminate; auto.
Qed.

Lemma count_zero_all_in (set : ascii -> bool) (c : ascii) (u : string) :
  (forall x, set x = true -> Ascii.eqb x c = false) ->
  Re.all_in set u = true -> Py.count c u = 0.
Proof.
  intros Hset. induction u as [|x u IH]; simpl; [reflexivity |].
  rewrite andb_true_iff. intros [Hx Hu]. now rewrite (Hset _ Hx), IH.
Qed.

(** A non-empty string is a string followed by its last character. *)
Lemma str_snoc (u : string) :
  u <> "" -> exists init c, u = init +:+ String c "".
Proof.
  induction u as [|x u IH]; [congruence |]. intros _.
  destruct u as [|y u].
  - now exists "", x.
  - destruct IH as (init & c & E); [discriminate |].
    exists (String x init), c. now rewrite str_app_cons, <- E.
Qed.

Lemma str_app_snoc_inv (x after s : string) (c : ascii) :
  x +:+ after = s +:+ String c "" -> after <> "" ->
  exists init, after = init +:+ String c "".
Proof.
  revert s. induction x as [|d x IH]; intros s E Hne.
  - rewrite str_app_nil_l in E. now exists s.
  - destruct s as [|d' s].
    + rewrite str_app_cons, str_app_nil_l in E. injection E as _ E.
      apply str_app_nil_inv in E as [_ ->]. congruence.
    + rewrite !str_app_cons in E. injection E as _ E. now apply (IH s).
Qed.

(** The parts of an accepted container value: what stands before the
    colon ends with a repository character and consists of repository
    characters and at most one slash, what stands after it is not empty. *)
Lemma container_accepted_inv (value : string) :
  check_container value = Ok value ->
  exists before c after,
    value = before +:+ String c (String ":" after)
    /\ Re.repo_char c = true
    /\ Re.all_in before_char before = true
    /\ Py.count "/" before <= 1
    /\ after <> ""
    /\ Re.all_in after_char after = true.
Proof.
  intros H. apply check_container_spec in H.
  assert (Hparts : exists reg sl repo tag v,
    value = reg +:+ sl +:+ repo +:+ ":" +:+ tag +:+ v
    /\ Re.all_in Re.letter reg = true /\ (sl = "" \/ sl = "/")
    /\ repo <> "" /\ Re.all_in Re.repo_char repo = true
    /\ tag <> "" /\ Re.all_in Re.tag_char tag = true
    /\ (v = "" \/ v = String Re.newline "")).
  { destruct H as [H | (t & -> & H)];
      destruct H as (reg & sl & repo & tag & -> & H1 & H2 & H3 & H4 & H5 & H6).
    - exists reg, sl, repo, tag, "". rewrite str_app_nil_r. auto 10.
    - exists reg, sl, repo, tag, (String Re.newline "").
      rewrite !str_app_assoc. auto 10. }
  destruct Hparts as (reg & sl & repo & tag & v & -> & Hreg & Hsl & Nrepo
                      & Hrepo & Ntag & Htag & Hv).
  destruct (str_snoc repo Nrepo) as (init & c & ->).
  rewrite all_in_app in Hrepo. apply andb_true_iff in Hrepo as [Hinit Hc].
  simpl in Hc. rewrite andb_true_r in Hc.
  exists (reg +:+ sl +:+ init), c, (tag +:+ v).
  assert (Hletter : Re.all_in Re.repo_char reg = true).
  { apply (all_in_weaken Re.letter); [| exact Hreg].
    intros x Hx. unfold Re.repo_char. now rewrite Hx. }
  repeat apply conj.
  - now rewrite !str_app_assoc.
  - exact Hc.
  - rewrite !all_in_app, !andb_true_iff. repeat apply conj.
    + apply (all_in_weaken Re.repo_char); [| exact Hletter].
      intros x Hx. unfold before_char. now rewrite Hx.
    + now destruct Hsl as [-> | ->].
    + apply (all_in_weaken Re.repo_char); [| exact Hinit].
      intros x Hx. unfold before_char. now rewrite Hx.
  - rewrite !count_app.
    rewrite (count_zero_all_in Re.repo_char "/" reg repo_char_not_slash Hletter).
    rewrite (count_zero_all_in Re.repo_char "/" init repo_char_not_slash Hinit).
    destruct Hsl as [-> | ->]; simpl; lia.
  - intros E. apply str_app_nil_inv in E as [E _]. contradiction.
  - rewrite all_in_app, andb_true_iff. split.
    + apply (all_in_weaken Re.tag_char); [| exact Htag].
      intros x Hx. unfold after_char. now rewrite Hx.
    + now destruct Hv as [-> | ->].
Qed.

Lemma count_cons (c x : ascii) (u : string) :
  Py.count c (String x u) = (if Ascii.eqb x c then 1 else 0) + Py.count c u.
Proof. reflexivity. Qed.

Lemma container_accepted_counts (value : string) :
  check_container value = Ok value ->
  Py.count ":" value = 1 /\ Py.count "/" value <= 1.
Proof.
  intros H. apply container_accepted_inv in H
    as (before & c & after & -> & Hc & Hb & Hs & _ & Ha).
  assert (Hbc : before_char c = true) by (unfold before_char; now rewrite Hc).
  rewrite !count_app, !count_cons.
  rewrite (count_zero_all_in before_char ":" before
             (fun x Hx => proj1 (before_char_facts x Hx)) Hb).
  rewrite (count_zero_all_in after_char ":" after
             (fun x Hx => proj1 (after_char_facts x Hx)) Ha).
  rewrite (count_zero_all_in after_char "/" after
             (fun x Hx => proj2 (after_char_facts x Hx)) Ha).
  rewrite (proj1 (before_char_facts c Hbc)), (repo_char_not_slash c Hc).
  simpl. lia.
Qed.

(** Cutting a string at its first occurrence of a character. *)
Lemma first_cut_unique (c : ascii) (u u' v v' : string) :
  u +:+ String c v = u' +:+ String c v' ->
  Py.count c u = 0 -> Py.count c u' = 0 -> u = u' /\ v = v'.
Proof.
  revert u'. induction u as [|x u IH]; intros [|x' u'];
    rewrite ?str_app_nil_l, ?str_app_cons; intros E Hu Hu'.
  - injection E as ->. auto.
  - injection E as <- _. simpl in Hu'. rewrite Ascii.eqb_refl in Hu'. lia.
  - injection E as -> _. simpl in Hu. rewrite Ascii.eqb_refl in Hu. lia.
  - injection E as <- E. simpl in Hu, Hu'.
    destruct (IH u' E) as [-> ->]; [lia | lia | auto].
Qed.

Lemma container_shape_sides (t : string) :
  container_shape t ->
  exists before tag,
    t = before +:+ ":" +:+ tag
    /\ before <> "" /\ tag <> ""
    /\ Re.all_in before_char before = true
    /\ Re.all_in Re.tag_char tag = true.
Proof.
  intros (reg & sl & repo & tag & -> & Hreg & Hsl & Nrepo & Hrepo & Ntag & Htag).
  exists (reg +:+ sl +:+ repo), tag. repeat apply conj; auto.
  - now rewrite !str_app_assoc.
  - intros E. apply str_app_nil_inv in E as [_ E].
    apply str_app_nil_inv in E as [_ E]. contradiction.
  - rewrite !all_in_app, !andb_true_iff. repeat apply conj.
    + apply (all_in_weaken Re.letter); [| exact Hreg].
      intros x Hx. unfold before_char, Re.repo_char. now rewrite Hx.
    + now destruct Hsl as [-> | ->].
    + apply (all_in_weaken Re.repo_char); [| exact Hrepo].
      intros x Hx. unfold before_char. now rewrite Hx.
Qed.

(** An accepted container value has exactly one colon and at most one
    slash; it is a non-empty part of letters, underscores, hyphens and the
    slash, the colon, and a non-empty tag of letters, digits, underscores
    and dots, followed by nothing or by one newline. *)
Theorem check_container_accepted (value : string) :
  check_container value = Ok value ->
  Py.count ":" value = 1 /\ Py.count "/" value <= 1
  /\ exists before tag,
       (value = before +:+ ":" +:+ tag
        \/ value = before +:+ ":" +:+ tag +:+ String Re.newline "")
       /\ before <> "" /\ tag <> ""
       /\ Re.all_in before_char before = true
       /\ Re.all_in Re.tag_char tag = true.
Proof.
  intros H. destruct (container_accepted_counts _ H) as [Hcolon Hslash].
  split; [exact Hcolon | split; [exact Hslash |]].
  apply check_container_spec in H as [H | (t & -> & H)];
    apply container_shape_sides in H
      as (before & tag & -> & Nb & Nt & Hb & Ht);
    exists before, tag; repeat apply conj; auto.
  right. now rewrite !str_app_assoc.
Qed.

Lemma check_container_accepted_witness :
  Py.count ":" "wipp/threshold:1.1.1" = 1
  /\ Py.count "/" "wipp/threshold:1.1.1" <= 1
  /\ exists before tag,
       ("wipp/threshold:1.1.1" = before +:+ ":" +:+ tag
        \/ "wipp/threshold:1.1.1"
           = before +:+ ":" +:+ tag +:+ String Re.newline "")
       /\ before <> "" /\ tag <> ""
       /\ Re.all_in before_char before = true
       /\ Re.all_in Re.tag_char tag = true.
Proof.
  exact (check_container_accepted "wipp/threshold:1.1.1" eq_refl).
Defined.

Lemma check_container_total (value : string) :
  check_container value = Ok value
  \/ check_container value = Raise (ValueError container_msg).
Proof.
  unfold check_container. destruct (Re.match_container value); auto.
Qed.

Lemma check_container_reject (value : string) :
  check_container value <> Ok value ->
  check_container value = Raise (ValueError container_msg).
Proof. destruct (check_container_total value); [contradiction | auto]. Qed.

(** What the container check refuses: a value without colon, with nothing
    before the colon or nothing after it, with a digit or a dot anywhere
    before a colon (a registry host with a domain or a port, a repository
    name with a digit), or with a slash after a colon. *)
Theorem check_container_rejects (a b c : string) (d : ascii) :
  (Py.count ":" a = 0 ->
     check_container a = Raise (ValueError container_msg))
  /\ check_container (":" +:+ a) = Raise (ValueError container_msg)
  /\ check_container (a +:+ ":") = Raise (ValueError container_msg)
  /\ (Re.digit d = true \/ d = "."%char ->
     check_container (a +:+ String d (b +:+ ":" +:+ c))
     = Raise (ValueError container_msg))
  /\ check_container (a +:+ ":" +:+ b +:+ "/" +:+ c)
     = Raise (ValueError container_msg).
Proof.
  repeat apply conj.
  - intros H0. apply check_container_reject. intros H.
    apply container_accepted_counts in H as [H _]. lia.
  - apply check_container_reject. intros H.
    apply container_accepted_inv in H
      as (before & x & after & E & Hx & Hb & _).
    assert (Hbx : before_char x = true) by (unfold before_char; now rewrite Hx).
    destruct before as [|y before].
    + rewrite str_app_cons, !str_app_nil_l in E. injection E as <- _.
      discriminate.
    + rewrite !str_app_cons, str_app_nil_l in E. injection E as <- _.
      simpl in Hb. discriminate.
  - apply check_container_reject. intros H.
    apply container_accepted_inv in H
      as (before & x & after & E & _ & _ & _ & Na & Ha).
    symmetry in E.
    change (String x (String ":" after))
      with (String x (String ":" "") +:+ after) in E.
    rewrite <- str_app_assoc in E.
    destruct (str_app_snoc_inv _ _ _ _ E Na) as (init & ->).
    rewrite all_in_app in Ha. apply andb_true_iff in Ha as [_ Ha].
    discriminate.
  - intros Hd. apply check_container_reject. intros H.
    pose proof (container_accepted_counts _ H) as [Hcolon _].
    apply container_accepted_inv in H
      as (before & x & after & E & Hx & Hb & _ & _ & Ha).
    assert (Hbx : before_char x = true) by (unfold before_char; now rewrite Hx).
    assert (Hd' : Ascii.eqb d ":" = false) by
      (destruct Hd as [Hd | ->]; [| reflexivity];
       destruct (Ascii.eqb_spec d ":") as [-> |]; [discriminate | reflexivity]).
    rewrite !count_app, count_cons, !count_app, Hd' in Hcolon.
    change (Py.count ":" ":") with 1 in Hcolon.
    change (a +:+ String d (b +:+ ":" +:+ c))
      with (a +:+ String d (b +:+ String ":" c)) in E.
    change (a +:+ String d (b +:+ String ":" c))
      with (a +:+ (String d "" +:+ (b +:+ String ":" c))) in E.
    rewrite <- !str_app_assoc in E.
    change (before +:+ String x (String ":" after))
      with (before +:+ (String x "" +:+ String ":" after)) in E.
    rewrite <- str_app_assoc in E.
    apply first_cut_unique in E as [E _].
    + assert (Hall : Re.all_in before_char ((a +:+ String d "") +:+ b) = true).
      { rewrite E, all_in_app, Hb. simpl. now rewrite Hbx. }
      rewrite !all_in_app in Hall. simpl in Hall.
      apply andb_true_iff in Hall as [Hall _].
      apply andb_true_iff in Hall as [_ Hall].
      rewrite andb_true_r in Hall.
      destruct (before_char_facts d Hall) as (_ & Hdig & Hdot).
      destruct Hd as [Hd | ->]; [congruence | discriminate].
    + rewrite !count_app, count_cons, Hd'. simpl. lia.
    + rewrite count_app, count_cons, (proj1 (before_char_facts x Hbx)).
      rewrite (count_zero_all_in before_char ":" before
                 (fun y Hy => proj1 (before_char_facts y Hy)) Hb).
      reflexivity.
  - apply check_container_reject. intros H.
    pose proof (container_accepted_counts _ H) as [Hcolon _].
    apply container_accepted_inv in H
      as (before & x & after & E & Hx & Hb & _ & _ & Ha).
    assert (Hbx : before_char x = true) by (unfold before_char; now rewrite Hx).
    rewrite !count_app in Hcolon. change (Py.count ":" ":") with 1 in Hcolon.
    assert (E' : a +:+ String ":" (b +:+ "/" +:+ c)
                 = (before +:+ String x "") +:+ String ":" after).
    { rewrite str_app_assoc. exact E. }
    clear E. rename E' into E.
    apply first_cut_unique in E as [_ E]; [| lia |].
    + rewrite <- E, !all_in_app in Ha. simpl in Ha.
      apply andb_true_iff in Ha as [_ Ha]. discriminate.
    + rewrite count_app, count_cons, (proj1 (before_char_facts x Hbx)).
      rewrite (count_zero_all_in before_char ":" before
                 (fun y Hy => proj1 (before_char_facts y Hy)) Hb).
      reflexivity.
Qed.

Lemma check_container_rejects_witness :
  check_container "threshold" = Raise (ValueError container_msg)
  /\ check_container "localhost:5000/threshold:1.1.1"
     = Raise (ValueError container_msg)
  /\ check_container "docker.io/threshold:1.1.1"
     = Raise (ValueError container_msg).
Proof.
  split; [| split].
  - apply (proj1 (check_container_rejects "threshold" "" "" "0")).
    reflexivity.
  - exact (proj2 (proj2 (proj2 (proj2
      (check_container_rejects "localhost" "5000" "threshold:1.1.1" "0"))))).
  - apply (proj1 (proj2 (proj2 (proj2
      (check_container_rejects "docker" "io/threshold" "1.1.1" ".")))));
      now right.
Defined.

(** ** Names and containers *)

Lemma check_name_count (value : string) :
  (Py.count "/" value = 1 \/ Py.count "/" value = 2)
  /\ check_name value = Ok value
  \/ ~ (Py.count "/" value = 1 \/ Py.count "/" value = 2)
     /\ check_name value = Raise (ValueError name_msg).
Proof.
  unfold check_name. simpl. rewrite split_length.
  destruct (Py.count "/" value) as [|[|[|n]]]; simpl; [right | left | left | right];
    split; auto; lia.
Qed.

(** A name of three segments passes the name check, but no container value
    can use it as its image path: the name followed by a colon and a tag
    is refused whatever the tag, the container pattern allowing one slash
    at most. *)
Theorem name_three_segments_no_container (value tag : string) :
  Py.count "/" value = 2 ->
  check_name value = Ok value
  /\ check_container (value +:+ ":" +:+ tag)
     = Raise (ValueError container_msg).
Proof.
  intros H2. split.
  - destruct (check_name_count value) as [[_ H] | [H _]]; [exact H |].
    exfalso. apply H. now right.
  - apply check_container_reject. intros H.
    apply container_accepted_counts in H as [_ H].
    rewrite count_app, H2 in H. lia.
Qed.

Lemma name_three_segments_no_container_witness :
  check_name "org/sub/tool" = Ok "org/sub/tool"
  /\ check_container "org/sub/tool:1.1.1" = Raise (ValueError container_msg).
Proof.
  exact (name_three_segments_no_container "org/sub/tool" "1.1.1" eq_refl).
Defined.

(** ** The error report *)

Lemma ap_errors {A B} (f : checked (A -> B)) (x : checked A) :
  errors_of (f <*> x) = (errors_of f ++ errors_of x)%list.
Proof.
  destruct f as [e|g], x as [e'|a]; simpl; auto.
  now rewrite app_nil_r.
Qed.

Lemma ap_not_empty {A B} (f : checked (A -> B)) (x : checked A) :
  f <> inl [] -> x <> inl [] -> f <*> x <> inl [].
Proof.
  destruct f as [e|g], x as [e'|a]; simpl; intros Hf Hx H;
    try discriminate; injection H as H.
  - apply app_eq_nil in H as [-> _]. now apply Hf.
  - subst e. now apply Hf.
  - subst e'. now apply Hx.
Qed.

Lemma errors_of_nil {A} (c : checked A) :
  c <> inl [] -> errors_of c = [] -> exists a, c = inr a.
Proof.
  destruct c as [e|a]; simpl; [| eauto]. intros H ->. now destruct H.
Qed.

Section Report.

Context {Version Url : Type}.
Variable version_validate : raw Version Url -> option Version.
Variable url_validate : raw Version Url -> option Url.
Variable email_validate : string -> option string.

Local Abbreviation construct' :=
  (construct version_validate url_validate email_validate).
Local Abbreviation validate' :=
  (validate version_validate url_validate email_validate).

Lemma author_items_not_empty (field : string) (xs : list (raw Version Url))
    (i : nat) :
  author_items field i xs <> inl [].
Proof.
  revert i. induction xs as [|x xs IH]; intros i; cbn [author_items];
    [discriminate |].
  apply ap_not_empty; [| apply IH].
  apply ap_not_empty; [discriminate |].
  unfold author_value, after. destruct x; try discriminate.
  destruct (check_author s); discriminate.
Qed.

Lemma required_not_empty {A} (field : string)
    (v : raw Version Url -> checked A) (m : gmap string (raw Version Url)) :
  (forall x, v x <> inl []) -> required field v m <> inl [].
Proof. intros Hv. unfold required. destruct (m !! field); [apply Hv | discriminate]. Qed.

Lemma with_default_None_not_empty {A} (field : string)
    (v : raw Version Url -> checked (option A))
    (m : gmap string (raw Version Url)) :
  (forall x, v x <> inl []) -> with_default_None field v m <> inl [].
Proof.
  intros Hv. unfold with_default_None.
  destruct (m !! field); [apply Hv | discriminate].
Qed.

Lemma nullable_not_empty {A} (v : raw Version Url -> checked A)
    (x : raw Version Url) :
  (forall y, v y <> inl []) -> nullable v x <> inl [].
Proof.
  intros Hv. unfold nullable.
  destruct x; try discriminate;
    match goal with |- context [v ?y] =>
      pose proof (Hv y); destruct (v y) as [es|val]; congruence end.
Qed.

Lemma str_value_not_empty (field : string) (x : raw Version Url) :
  str_value field x <> inl [].
Proof. destruct x; discriminate. Qed.

Lemma checked_str_not_empty (field : string) (check : string -> result string)
    (x : raw Version Url) :
  checked_str field check x <> inl [].
Proof.
  unfold checked_str, after. destruct x; simpl; try discriminate.
  destruct (check s); discriminate.
Qed.

Lemma version_value_not_empty (field : string) (x : raw Version Url) :
  version_value version_validate field x <> inl [].
Proof. unfold version_value. destruct (version_validate x); discriminate. Qed.

Lemma url_value_not_empty (field : string) (x : raw Version Url) :
  url_value url_validate field x <> inl [].
Proof. unfold url_value. destruct (url_validate x); discriminate. Qed.

Lemma entrypoint_value_not_empty (field : string) (x : raw Version Url) :
  entrypoint_value field x <> inl [].
Proof. destruct x; discriminate. Qed.

Lemma contact_value_not_empty (field : string) (x : raw Version Url) :
  contact_value url_validate email_validate field x <> inl [].
Proof.
  unfold contact_value.
  destruct (match x with RStr s => email_validate s | _ => None end);
    [discriminate |].
  destruct (url_validate x); discriminate.
Qed.

Lemma author_list_not_empty (field : string) (x : raw Version Url) :
  author_list field x <> inl [].
Proof. destruct x; try discriminate. apply author_items_not_empty. Qed.

Lemma doi_value_not_empty (field : string) (x : raw Version Url) :
  doi_value field x <> inl [].
Proof.
  unfold doi_value, after. destruct x; try discriminate.
  destruct (check_doi s); discriminate.
Qed.

Lemma construct_not_empty (m : gmap string (raw Version Url)) :
  construct' m <> inl [].
Proof.
  unfold construct.
  repeat (apply ap_not_empty); try discriminate;
    unfold f_specVersion, f_name, f_version, f_container, f_entrypoint,
      f_title, f_description, f_author, f_contact, f_repository,
      f_documentation, f_citation;
    first [ apply required_not_empty | apply with_default_None_not_empty ];
    intros x; try (apply nullable_not_empty; intros y);
    auto using str_value_not_empty, checked_str_not_empty,
      version_value_not_empty, url_value_not_empty,
      entrypoint_value_not_empty, contact_value_not_empty,
      author_list_not_empty, doi_value_not_empty.
Qed.

Lemma validate_errors_construct (m : gmap string (raw Version Url)) :
  errors_of (validate' m) = errors_of (construct' m).
Proof. unfold validate. now destruct (construct' m). Qed.

Lemma construct_errors (m : gmap string (raw Version Url)) :
  errors_of (construct' m)
  = (errors_of (f_specVersion version_validate m)
     ++ errors_of (f_name m)
     ++ errors_of (f_version version_validate m)
     ++ errors_of (f_container m)
     ++ errors_of (f_entrypoint m)
     ++ errors_of (f_title m)
     ++ errors_of (f_description m)
     ++ errors_of (f_author m)
     ++ errors_of (f_contact url_validate email_validate m)
     ++ errors_of (f_repository url_validate m)
     ++ errors_of (f_documentation url_validate m)
     ++ errors_of (f_citation m))%list.
Proof.
  unfold construct. rewrite !ap_errors. simpl. now rewrite <- !app_assoc.
Qed.

End Report.

(** ** Missing, optional and unknown keys *)

Section Keys.

Context {Version Url : Type}.
Variable version_validate : raw Version Url -> option Version.
Variable url_validate : raw Version Url -> option Url.
Variable email_validate : string -> option string.

Local Abbreviation construct' :=
  (construct version_validate url_validate email_validate).
Local Abbreviation validate' :=
  (validate version_validate url_validate email_validate).

Ltac one_error :=
  let err := fresh "err" in let Herr := fresh "Herr" in
  intros err Herr; simpl in Herr; destruct Herr as [<- | []]; discriminate.
Ltac no_error := let err := fresh "err" in intros err [].

Lemma str_value_never_missing (field : string) (x : raw Version Url) :
  never_missing (str_value field x).
Proof. destruct x; simpl; try one_error; no_error. Qed.

Lemma checked_str_never_missing (field : string)
    (check : string -> result string) (x : raw Version Url) :
  never_missing (checked_str field check x).
Proof.
  unfold checked_str, after. destruct x; simpl; try one_error.
  destruct (check s); [no_error | one_error].
Qed.

Lemma version_value_never_missing (field : string) (x : raw Version Url) :
  never_missing (version_value version_validate field x).
Proof.
  unfold version_value. destruct (version_validate x);
    [no_error | one_error].
Qed.

Lemma url_value_never_missing (field : string) (x : raw Version Url) :
  never_missing (url_value url_validate field x).
Proof.
  unfold url_value. destruct (url_validate x); [no_error | one_error].
Qed.

Lemma entrypoint_value_never_missing (field : string) (x : raw Version Url) :
  never_missing (entrypoint_value field x).
Proof. destruct x; simpl; try one_error; no_error. Qed.

Lemma contact_value_never_missing (field : string) (x : raw Version Url) :
  never_missing (contact_value url_validate email_validate field x).
Proof.
  unfold contact_value.
  destruct (match x with RStr s => email_validate s | _ => None end);
    [no_error |].
  destruct (url_validate x); [no_error | one_error].
Qed.

Lemma author_items_never_missing (field : string)
    (xs : list (raw Version Url)) (i : nat) :
  never_missing (author_items field i xs).
Proof.
  revert i. induction xs as [|x xs IH]; intros i; cbn [author_items];
    [no_error |].
  intros e. rewrite !ap_errors. simpl. rewrite in_app_iff.
  intros [He | He]; [| now apply (IH (S i))].
  revert e He. unfold author_value, after. destruct x; simpl; try one_error.
  - destruct (check_author s); [no_error | one_error].
  - no_error.
Qed.

Lemma author_list_never_missing (field : string) (x : raw Version Url) :
  never_missing (author_list field x).
Proof.
  destruct x; simpl; try one_error. apply author_items_never_missing.
Qed.

Lemma doi_value_never_missing (field : string) (x : raw Version Url) :
  never_missing (doi_value field x).
Proof.
  unfold doi_value, after. destruct x; simpl; try one_error.
  - destruct (check_doi s); [no_error | one_error].
  - no_error.
Qed.

Lemma nullable_never_missing {A} (v : raw Version Url -> checked A)
    (x : raw Version Url) :
  (forall y, never_missing (v y)) -> never_missing (nullable v x).
Proof.
  intros Hv. unfold nullable.
  destruct x; try (no_error);
    match goal with |- context [v ?y] =>
      pose proof (Hv y) as Hy; destruct (v y) as [es|val];
        [exact Hy | no_error] end.
Qed.

Lemma required_missing {A} (field : string) (v : raw Version Url -> checked A)
    (m : gmap string (raw Version Url)) (f : string) (i : option nat) :
  (forall x, never_missing (v x)) ->
  In (Error f i missing) (errors_of (required field v m))
  <-> f = field /\ i = None /\ m !! field = None.
Proof.
  intros Hv. unfold required. destruct (m !! field) as [x|]; simpl.
  - split; [| intros (_ & _ & H); discriminate].
    intros H. now destruct (Hv x _ H).
  - split.
    + intros [H | []]. injection H as <- <-. auto.
    + intros (-> & -> & _). now left.
Qed.

Lemma with_default_None_missing {A} (field : string)
    (v : raw Version Url -> checked (option A))
    (m : gmap string (raw Version Url)) (f : string) (i : option nat) :
  (forall x, never_missing (v x)) ->
  ~ In (Error f i missing) (errors_of (with_default_None field v m)).
Proof.
  intros Hv. unfold with_default_None. destruct (m !! field) as [x|]; simpl.
  - intros H. now destruct (Hv x _ H).
  - intros [].
Qed.

(** A field is reported as missing exactly when it is one of the nine
    fields declared without default and its key is not in the mapping;
    the three fields with a default are never reported as missing. *)
Theorem missing_iff_required_absent (m : gmap string (raw Version Url))
    (f : string) (i : option nat) :
  In (Error f i missing) (errors_of (validate' m))
  <-> i = None /\ In f required_fields /\ m !! f = None.
Proof.
  rewrite validate_errors_construct, construct_errors, !in_app_iff.
  unfold f_specVersion, f_name, f_version, f_container, f_entrypoint,
    f_title, f_description, f_author, f_contact, f_repository,
    f_documentation, f_citation.
  rewrite !required_missing by
    (intros x; try (apply nullable_never_missing; intros y);
     auto using str_value_never_missing, checked_str_never_missing,
       version_value_never_missing, url_value_never_missing,
       entrypoint_value_never_missing, contact_value_never_missing,
       author_list_never_missing, doi_value_never_missing).
  pose proof (with_default_None_missing "title"
    (nullable (str_value "title")) m f i
    (fun x => nullable_never_missing _ x (str_value_never_missing "title")))
    as Ht.
  pose proof (with_default_None_missing "description"
    (nullable (str_value "description")) m f i
    (fun x => nullable_never_missing _ x
                (str_value_never_missing "description"))) as Hd.
  pose proof (with_default_None_missing "documentation"
    (nullable (url_value url_validate "documentation")) m f i
    (fun x => nullable_never_missing _ x
                (url_value_never_missing "documentation"))) as Hdoc.
  unfold required_fields. simpl. split.
  - intros H. repeat (destruct H as [H | H]); try contradiction;
      destruct H as (-> & -> & H); auto 20.
  - intros (-> & H & Hm).
    repeat (destruct H as [<- | H]); auto 20. contradiction.
Qed.

End Keys.

Section Mapping.

Context {Version Url : Type}.
Variable version_validate : raw Version Url -> option Version.
Variable url_validate : raw Version Url -> option Url.
Variable email_validate : string -> option string.

Local Abbreviation construct' :=
  (construct version_validate url_validate email_validate).
Local Abbreviation validate' :=
  (validate version_validate url_validate email_validate).

(** Only the twelve field names are looked up: two mappings that agree on
    them give the same outcome, so keys that are not field names are
    ignored. *)
Theorem validate_relevant_keys (m1 m2 : gmap string (raw Version Url)) :
  (forall k, In k (required_fields ++ optional_fields) ->
             m1 !! k = m2 !! k) ->
  validate' m1 = validate' m2.
Proof.
  intros H. unfold validate, construct.
  unfold f_specVersion, f_name, f_version, f_container, f_entrypoint,
    f_title, f_description, f_author, f_contact, f_repository,
    f_documentation, f_citation, required, with_default_None.
  rewrite (H "specVersion"), (H "name"), (H "version"), (H "container"),
    (H "entrypoint"), (H "title"), (H "description"), (H "author"),
    (H "contact"), (H "repository"), (H "documentation"), (H "citation");
    simpl; auto 20.
Qed.

(** For the three fields declared with default [None], leaving the key out
    and giving [None] for it come to the same. *)
Theorem optional_absent_is_None (m : gmap string (raw Version Url))
    (k : string) :
  In k optional_fields ->
  validate' (delete k m) = validate' (<[k := RNone]> m).
Proof.
  intros Hk. simpl in Hk.
  unfold validate, construct.
  unfold f_specVersion, f_name, f_version, f_container, f_entrypoint,
    f_title, f_description, f_author, f_contact, f_repository,
    f_documentation, f_citation, required, with_default_None.
  destruct Hk as [<- | [<- | [<- | []]]];
    rewrite lookup_delete_eq, lookup_insert_eq;
    rewrite !lookup_delete_ne, !lookup_insert_ne by done; reflexivity.
Qed.

End Mapping.

Lemma validate_relevant_keys_witness :
  validate Sample.version_validate Sample.url_validate Sample.email_validate
    (<["license" := RStr "MIT"]> Sample.document)
  = validate Sample.version_validate Sample.url_validate
      Sample.email_validate Sample.document.
Proof.
  apply (@validate_relevant_keys string string Sample.version_validate
           Sample.url_validate Sample.email_validate).
  intros k Hk. apply lookup_insert_ne. simpl in Hk.
  repeat (destruct Hk as [<- | Hk]; [discriminate |]). contradiction.
Defined.

Lemma optional_absent_is_None_witness :
  validate Sample.version_validate Sample.url_validate Sample.email_validate
    (delete "title" Sample.document)
  = validate Sample.version_validate Sample.url_validate
      Sample.email_validate (<["title" := RNone]> Sample.document).
Proof.
  apply (@optional_absent_is_None string string Sample.version_validate
           Sample.url_validate Sample.email_validate Sample.document "title").
  simpl. auto.
Defined.

(** ** What a validated record holds *)

Lemma check_author_count (value : string) :
  Py.count " " value = 1 /\ check_author value = Ok value
  \/ Py.count " " value <> 1
     /\ check_author value = Raise (ValueError author_msg).
Proof.
  unfold check_author. rewrite split_length.
  destruct (Py.count " " value) as [|[|n]]; simpl; [right | left | right];
    split; auto; lia.
Qed.

Section Records.

Context {Version Url : Type}.
Variable version_validate : raw Version Url -> option Version.
Variable url_validate : raw Version Url -> option Url.
Variable email_validate : string -> option string.

Local Abbreviation construct' :=
  (construct version_validate url_validate email_validate).
Local Abbreviation validate' :=
  (validate version_validate url_validate email_validate).

(** A title given as a string is kept as it is, the empty string
    included: the name is used only when the title is [None]. *)
Theorem validate_keeps_title (m : gmap string (raw Version Url))
    (r : Metadata Version Url) (t : string) :
  m !! "title" = Some (RStr t) ->
  validate' m = inr r ->
  title r = Some t.
Proof.
  intros Ht H. apply validate_inr in H as (r0 & Hc & ->).
  apply construct_fields in Hc as (_ & _ & _ & _ & _ & H6 & _).
  unfold f_title, with_default_None in H6. rewrite Ht in H6. simpl in H6.
  injection H6 as H6. unfold default_title. now rewrite <- H6.
Qed.

(** A name and a container given as strings are held by the validated
    record unchanged; whatever the mapping gives, the name of a validated
    record has one or two slashes, and its container one colon and at
    most one slash. *)
Theorem validated_name_container (m : gmap string (raw Version Url))
    (r : Metadata Version Url) :
  validate' m = inr r ->
  (forall s, m !! "name" = Some (RStr s) -> name r = s)
  /\ (forall s, m !! "container" = Some (RStr s) -> container r = s)
  /\ (Py.count "/" (name r) = 1 \/ Py.count "/" (name r) = 2)
  /\ Py.count ":" (container r) = 1
  /\ Py.count "/" (container r) <= 1.
Proof.
  intros H. apply validate_inr in H as (r0 & Hc & ->).
  apply construct_fields in Hc as (_ & H2 & _ & H4 & _).
  destruct (default_title_fields r0) as (_ & -> & _ & -> & _).
  unfold f_name, f_container, required, checked_str, str_value, after in *.
  destruct (m !! "name") as [[]|]; try discriminate.
  destruct (m !! "container") as [[]|]; try discriminate.
  destruct (check_name s) as [n|] eqn:En; [| discriminate].
  destruct (check_container s0) as [c|] eqn:Ec; [| discriminate].
  injection H2 as <-. injection H4 as <-.
  pose proof (check_name_id _ _ En) as ->.
  pose proof (check_container_id _ _ Ec) as ->.
  destruct (container_accepted_counts _ Ec) as [Hcolon Hslash].
  repeat apply conj; auto; try congruence.
  destruct (check_name_count s) as [[Hn _] | [_ Hn]]; [exact Hn | congruence].
Qed.

(** Authors given as strings: where the errors of the list are. *)
Lemma author_items_errors (field : string) (names : list string) (i : nat)
    (err : error) :
  In err (errors_of (author_items field i (map (@RStr Version Url) names)))
  <-> exists k s, names !! k = Some s /\ Py.count " " s <> 1
        /\ err = Error field (Some (i + k)) (raised (ValueError author_msg)).
Proof.
  revert i. induction names as [|s names IH]; intros i.
  - simpl. split; [intros [] | intros (k & s & H & _)]. discriminate.
  - cbn [map author_items]. rewrite !ap_errors. simpl errors_of at 1.
    rewrite app_nil_l, in_app_iff, IH.
    unfold author_value, after.
    destruct (check_author_count s) as [[Hs Es] | [Hs Es]]; rewrite Es; simpl.
    + split.
      * intros [[] | (k & s' & Hk & Hc & ->)].
        exists (S k), s'. repeat split; auto. f_equal. f_equal. lia.
      * intros ([|k] & s' & Hk & Hc & ->); simpl in Hk.
        -- injection Hk as <-. contradiction.
        -- right. exists k, s'. repeat split; auto. f_equal. f_equal. lia.
    + split.
      * intros [[<- | []] | (k & s' & Hk & Hc & ->)].
        -- exists 0, s. repeat split; auto. f_equal. f_equal. lia.
        -- exists (S k), s'. repeat split; auto. f_equal. f_equal. lia.
      * intros ([|k] & s' & Hk & Hc & ->); simpl in Hk.
        -- left. left. f_equal. f_equal. lia.
        -- right. exists k, s'. repeat split; auto. f_equal. f_equal. lia.
Qed.

Lemma author_items_value (field : string) (names : list string) (i : nat)
    (l : list Author) :
  author_items field i (map (@RStr Version Url) names) = inr l ->
  l = map mkAuthor names.
Proof.
  revert i l. induction names as [|s names IH]; intros i l.
  - simpl. congruence.
  - cbn [map author_items]. intros H.
    apply ap_inr in H as (g & l' & H & Hl & ->).
    apply ap_inr in H as (g' & a & H & Ha & ->).
    injection H as <-. apply IH in Hl as ->.
    unfold author_value, after in Ha.
    destruct (check_author s) as [v|] eqn:E; [| discriminate].
    injection Ha as <-. now rewrite (check_author_id _ _ E).
Qed.

Lemma author_items_report (field : string) (names : list string) (i : nat) :
  errors_of (author_items field i (map (@RStr Version Url) names))
  = map (author_error field) (refused_positions i names).
Proof.
  revert i. induction names as [|s names IH]; intros i; [reflexivity |].
  cbn [map author_items refused_positions]. rewrite !ap_errors.
  simpl errors_of at 1. rewrite app_nil_l, IH, map_app. f_equal.
  unfold author_value, after.
  destruct (check_author_count s) as [[Hs Es] | [Hs Es]]; rewrite Es.
  - now rewrite Hs.
  - apply Nat.eqb_neq in Hs. now rewrite Hs.
Qed.

Lemma refused_positions_spec (names : list string) (i k : nat) :
  In k (refused_positions i names)
  <-> exists j s, k = i + j /\ names !! j = Some s /\ Py.count " " s <> 1.
Proof.
  revert i. induction names as [|s names IH]; intros i.
  - simpl. split; [intros [] | intros (j & s & _ & H & _)]. discriminate.
  - cbn [refused_positions]. rewrite in_app_iff, IH. split.
    + intros [H | (j & s' & -> & Hj & Hc)].
      * destruct (Nat.eqb_spec (Py.count " " s) 1) as [|Hne]; [destruct H |].
        destruct H as [<- | []]. exists 0, s. repeat split; auto; lia.
      * exists (S j), s'. repeat split; auto; lia.
    + intros ([|j] & s' & -> & Hj & Hc); simpl in Hj.
      * injection Hj as <-. left. apply Nat.eqb_neq in Hc. rewrite Hc.
        left. lia.
      * right. exists j, s'. repeat split; auto; lia.
Qed.

Lemma refused_positions_sorted (names : list string) (i : nat) :
  StronglySorted lt (refused_positions i names).
Proof.
  revert i. induction names as [|s names IH]; intros i; [constructor |].
  cbn [refused_positions].
  destruct (Py.count " " s =? 1)%nat; simpl; [apply IH |].
  constructor; [apply IH |].
  apply Forall_forall. intros k Hk. apply list_elem_of_In in Hk.
  apply refused_positions_spec in Hk as (j & _ & -> & _). lia.
Qed.

(** A list of authors given as strings is accepted exactly when every
    string has exactly one space; the record then holds one author per
    string, in the same order, and the empty list gives no author.
    Otherwise the report is exactly one error for each refused string,
    carrying its position in the list, in increasing order of position. *)
Theorem authors_from_strings (m : gmap string (raw Version Url))
    (names : list string) :
  m !! "author" = Some (RList (map RStr names)) ->
  (Forall (fun s => Py.count " " s = 1) names <->
     f_author m = inr (map mkAuthor names))
  /\ (forall l, f_author m = inr l -> l = map mkAuthor names)
  /\ errors_of (f_author m)
     = map (author_error "author") (refused_positions 0 names)
  /\ (forall k, In k (refused_positions 0 names) <->
        exists s, names !! k = Some s /\ Py.count " " s <> 1)
  /\ StronglySorted lt (refused_positions 0 names).
Proof.
  intros Hm. unfold f_author, required. rewrite Hm. simpl author_list.
  assert (Hpos : forall k, In k (refused_positions 0 names) <->
                   exists s, names !! k = Some s /\ Py.count " " s <> 1).
  { intros k. rewrite refused_positions_spec. split.
    - intros (j & s & -> & H). now exists s.
    - intros (s & H). now exists k, s. }
  split; [| split; [apply author_items_value |
            split; [apply author_items_report |
            split; [exact Hpos | apply refused_positions_sorted]]]].
  split.
  - intros Hall.
    destruct (errors_of_nil
                (author_items "author" 0 (map (@RStr Version Url) names)))
      as [l Hl].
    + apply author_items_not_empty.
    + rewrite author_items_report.
      destruct (refused_positions 0 names) as [|k ks] eqn:E; [reflexivity |].
      destruct (proj1 (Hpos k) (or_introl eq_refl)) as (s & Hk & Hc).
      rewrite Forall_forall in Hall. exfalso. apply Hc, Hall.
      apply list_elem_of_lookup. eauto.
    + now rewrite Hl, (author_items_value _ _ _ _ Hl).
  - intros H. apply Forall_forall. intros s Hs.
    destruct (check_author_count s) as [[Hc _] | [Hc _]]; [exact Hc |].
    exfalso. apply list_elem_of_lookup in Hs as [k Hk].
    assert (Hin : In k (refused_positions 0 names)) by (apply Hpos; eauto).
    pose proof (author_items_report "author" names 0) as E.
    rewrite H in E. simpl in E.
    destruct (refused_positions 0 names); [destruct Hin | discriminate].
Qed.

End Records.

(** The sample document with an empty title. *)
Lemma validate_keeps_title_witness :
  title (mkMetadata "0.1.0" "wipp/threshold" "1.1.1" "wipp/threshold:1.1.1"
           (EStr "/opt/executables/main.sh") (Some "") None
           [mkAuthor "Mohammed Ouladi"]
           (Some (CEmail "mohammed.ouladi@labshare.org"))
           "https://github.com/polusai/polus-plugins" None
           (Some (mkDOI "10.1000/abc")))
  = Some "".
Proof.
  apply (validate_keeps_title Sample.version_validate Sample.url_validate
           Sample.email_validate (<["title" := RStr ""]> Sample.document));
    vm_compute; reflexivity.
Defined.

Lemma validated_name_container_witness :
  name Sample.record = "wipp/threshold"
  /\ Py.count ":" (container Sample.record) = 1.
Proof.
  destruct (validated_name_container Sample.version_validate
              Sample.url_validate Sample.email_validate Sample.document
              Sample.record ltac:(vm_compute; reflexivity))
    as (Hn & _ & _ & Hc & _).
  split; [apply Hn; vm_compute; reflexivity | exact Hc].
Defined.

(** Three authors, the second and the third refused. *)
Lemma authors_from_strings_witness :
  errors_of (f_author (<["author" := RList [RStr "Jane Doe"; RStr "Madonna";
                                             RStr "A B C"]]> Sample.document))
  = [author_error "author" 1; author_error "author" 2].
Proof.
  assert (Hm : (<["author" := RList [RStr "Jane Doe"; RStr "Madonna";
                                     RStr "A B C"]]> Sample.document)
               !! "author"
               = Some (RList (map RStr ["Jane Doe"; "Madonna"; "A B C"])))
    by (vm_compute; reflexivity).
  exact (proj1 (proj2 (proj2 (authors_from_strings _ _ Hm)))).
Defined.

(** ** Which field an error names *)

Section Blame.

Context {Version Url : Type}.
Variable version_validate : raw Version Url -> option Version.
Variable url_validate : raw Version Url -> option Url.
Variable email_validate : string -> option string.

Local Abbreviation validate' :=
  (validate version_validate url_validate email_validate).

Lemma required_errors {A} (field : string) (v : raw Version Url -> checked A)
    (m : gmap string (raw Version Url)) (err : error) :
  In err (errors_of (required field v m)) ->
  err = Error field None missing /\ m !! field = None
  \/ exists x, m !! field = Some x /\ In err (errors_of (v x)).
Proof.
  unfold required. destruct (m !! field) as [x|]; simpl.
  - right. eauto.
  - intros [<- | []]. now left.
Qed.

Lemma with_default_None_errors {A} (field : string)
    (v : raw Version Url -> checked (option A))
    (m : gmap string (raw Version Url)) (err : error) :
  In err (errors_of (with_default_None field v m)) ->
  exists x, m !! field = Some x /\ In err (errors_of (v x)).
Proof.
  unfold with_default_None. destruct (m !! field) as [x|]; simpl; [eauto |].
  intros [].
Qed.

Lemma nullable_errors {A} (v : raw Version Url -> checked A)
    (x : raw Version Url) (err : error) :
  In err (errors_of (nullable v x)) -> In err (errors_of (v x)).
Proof.
  unfold nullable. destruct x; try (intros []);
    match goal with |- context [v ?y] =>
      destruct (v y) as [es|val]; simpl; auto end.
Qed.

Ltac single_error :=
  let err := fresh "err" in let Herr := fresh "Herr" in
  intros err Herr; simpl in Herr; destruct Herr as [<- | []];
  repeat split; discriminate.

Lemma str_value_names (field : string) (x : raw Version Url) (err : error) :
  In err (errors_of (str_value field x)) -> names_field field false err.
Proof. revert err. destruct x; simpl; try single_error; intros err []. Qed.

Lemma checked_str_names (field : string) (check : string -> result string)
    (x : raw Version Url) (err : error) :
  In err (errors_of (checked_str field check x)) ->
  names_field field false err.
Proof.
  revert err. unfold checked_str, after. destruct x; simpl; try single_error.
  destruct (check s); [intros err [] | single_error].
Qed.

Lemma version_value_names (field : string) (x : raw Version Url)
    (err : error) :
  In err (errors_of (version_value version_validate field x)) ->
  names_field field false err.
Proof.
  revert err. unfold version_value.
  destruct (version_validate x); [intros err [] | single_error].
Qed.

Lemma url_value_names (field : string) (x : raw Version Url) (err : error) :
  In err (errors_of (url_value url_validate field x)) ->
  names_field field false err.
Proof.
  revert err. unfold url_value.
  destruct (url_validate x); [intros err [] | single_error].
Qed.

Lemma entrypoint_value_names (field : string) (x : raw Version Url)
    (err : error) :
  In err (errors_of (entrypoint_value field x)) ->
  names_field field false err.
Proof. revert err. destruct x; simpl; try single_error; intros err []. Qed.

Lemma contact_value_names (field : string) (x : raw Version Url)
    (err : error) :
  In err (errors_of (contact_value url_validate email_validate field x)) ->
  names_field field false err.
Proof.
  revert err. unfold contact_value.
  destruct (match x with RStr s => email_validate s | _ => None end);
    [intros err [] |].
  destruct (url_validate x); [intros err [] | single_error].
Qed.

Lemma doi_value_names (field : string) (x : raw Version Url) (err : error) :
  In err (errors_of (doi_value field x)) -> names_field field false err.
Proof.
  revert err. unfold doi_value, after. destruct x; simpl; try single_error.
  - destruct (check_doi s); [intros err [] | single_error].
  - intros err [].
Qed.

Lemma author_items_names (field : string) (xs : list (raw Version Url))
    (i : nat) (err : error) :
  In err (errors_of (author_items field i xs)) -> names_field field true err.
Proof.
  revert i err. induction xs as [|x xs IH]; intros i err;
    cbn [author_items]; [intros [] |].
  rewrite !ap_errors. simpl. rewrite in_app_iff.
  intros [He | He]; [| now apply (IH (S i))].
  revert err He. unfold author_value, after. destruct x; simpl;
    try single_error.
  - destruct (check_author s); [intros err [] | single_error].
  - intros err [].
Qed.

Lemma author_list_names (field : string) (x : raw Version Url) (err : error) :
  In err (errors_of (author_list field x)) -> names_field field true err.
Proof.
  revert err. destruct x; simpl; try single_error.
  intros err. apply author_items_names.
Qed.

(** Every error of a report names one of the twelve fields; it is of kind
    [missing] exactly when the key of that field is not in the mapping,
    and it carries an index only for an element of [author]. *)
Theorem errors_name_fields (m : gmap string (raw Version Url)) (err : error) :
  In err (errors_of (validate' m)) ->
  In (err_field err) (required_fields ++ optional_fields)
  /\ (err_what err = missing <-> m !! err_field err = None)
  /\ (err_index err <> None -> err_field err = "author").
Proof.
  intros H.
  rewrite validate_errors_construct, construct_errors, !in_app_iff in H.
  unfold f_specVersion, f_name, f_version, f_container, f_entrypoint,
    f_title, f_description, f_author, f_contact, f_repository,
    f_documentation, f_citation in H.
  assert (Hpresent : forall field indexed x,
    m !! field = Some x -> names_field field indexed err ->
    In field (required_fields ++ optional_fields) ->
    (indexed = true -> field = "author") ->
    In (err_field err) (required_fields ++ optional_fields)
    /\ (err_what err = missing <-> m !! err_field err = None)
    /\ (err_index err <> None -> err_field err = "author")).
  { intros field indexed x Hx (Hf & Hw & Hi) Hin Hidx. rewrite Hf.
    split; [exact Hin | split].
    - rewrite Hx. split; [contradiction | discriminate].
    - destruct indexed; [auto |]. intros Hne. now destruct Hne; apply Hi. }
  assert (Habsent : forall field,
    err = Error field None missing -> m !! field = None ->
    In field (required_fields ++ optional_fields) ->
    In (err_field err) (required_fields ++ optional_fields)
    /\ (err_what err = missing <-> m !! err_field err = None)
    /\ (err_index err <> None -> err_field err = "author")).
  { intros field -> Hm Hin. simpl err_field. simpl err_what. simpl err_index.
    split; [exact Hin | split; [tauto | congruence]]. }
  repeat (destruct H as [H | H]);
    first [ apply required_errors in H as [[He Hm] | (x & Hx & H)];
            [ apply (Habsent _ He Hm); simpl; auto 20 | ]
          | apply with_default_None_errors in H as (x & Hx & H) ];
    try apply nullable_errors in H;
    first [ apply (Hpresent _ false x Hx);
              [ first [ now apply version_value_names in H
                      | now apply checked_str_names in H
                      | now apply str_value_names in H
                      | now apply url_value_names in H
                      | now apply entrypoint_value_names in H
                      | now apply contact_value_names in H
                      | now apply doi_value_names in H ]
              | simpl; auto 20 | discriminate ]
          | apply (Hpresent _ true x Hx);
              [ now apply author_list_names in H | simpl; auto 20 | auto ] ].
Qed.

End Blame.

(** The sample document without its [contact] key: the one error of the
    report names [contact], whose key is not in the mapping. *)
Lemma errors_name_fields_witness :
  In "contact" (required_fields ++ optional_fields)
  /\ delete "contact" Sample.document !! "contact" = None.
Proof.
  assert (E : errors_of (Sample.run (delete "contact" Sample.document))
              = [Error "contact" None missing]) by (vm_compute; reflexivity).
  assert (Hin : In (Error "contact" None missing)
                  (errors_of (Sample.run (delete "contact" Sample.document)))).
  { rewrite E. now left. }
  destruct (errors_name_fields Sample.version_validate Sample.url_validate
              Sample.email_validate (delete "contact" Sample.document)
              (Error "contact" None missing) Hin)
    as (Hin' & Hiff & _).
  exact (conj Hin' (proj1 Hiff eq_refl)).
Defined.
